(** * Dance Battle Scoreboard: the state logic of the [App] component

    The repository holds two variants of one React component:
    [src/src/App.tsx] and an unnamed listing ([src/unnamed/part_001]).
    Both keep a roster of competitors and a list of score records in
    component state and derive a leaderboard from them.

    The embedding is shallow.  Component state is a record, every event
    handler is a function from state to state (the closure a handler
    captures is the state of the last render, and events are handled one
    at a time), [crypto.randomUUID()] is an argument supplied by the
    environment, and the JavaScript array and string methods the handlers
    call are defined in [Module JS].

    Numbers: the score fields are fed by [parseInt(..., 10) || 0]
    (App.tsx) or by a star index between 0 and 10 (part_001), so they are
    integers; they are modelled by [Z].  JavaScript adds them as doubles,
    and a sum of integers is the integer sum only while operands and
    result are safe integers (at most 2^53 - 1 in absolute value); the
    number inputs of App.tsx accept any integer.  Orders and equalities of
    totals are stated with the totals as they are; a theorem that states
    the value of a total of App.tsx as a sum of fields assumes the sum
    exact ([exactSum]). *)

From Stdlib Require Import ZArith List String Ascii NArith Bool Lia.
From Stdlib Require Import Permutation Sorted.
Import ListNotations.

Local Open Scope Z_scope.

(* ------------------------------------------------------------------ *)
(** ** The JavaScript primitives used by the component *)

Module JS.

(** A JavaScript string is a sequence of UTF-16 code units. *)
Definition code_unit := N.
Definition jsstring := list code_unit.

(** A literal of the source, read as code units. *)
Definition str (s : string) : jsstring :=
  List.map N_of_ascii (list_ascii_of_string s).

(** [a === b] on strings. *)
Fixpoint eqb (a b : jsstring) : bool :=
  match a, b with
  | [], [] => true
  | x :: a', y :: b' => N.eqb x y && eqb a' b'
  | _, _ => false
  end.

(** [!!s] for a string: only the empty string is falsy. *)
Definition truthy (s : jsstring) : bool :=
  match s with [] => false | _ :: _ => true end.

(** The code units [String.prototype.trim] strips: WhiteSpace (TAB, VT,
    FF, ZWNBSP and the space separators) and LineTerminator (LF, CR, LS,
    PS) of ECMA-262.  All of them lie in the basic plane. *)
Definition isWhiteSpace (c : code_unit) : bool :=
  let n := Z.of_N c in
  ((9 <=? n) && (n <=? 13))
  || (n =? 32) || (n =? 160) || (n =? 5760)
  || ((8192 <=? n) && (n <=? 8202))
  || (n =? 8232) || (n =? 8233) || (n =? 8239) || (n =? 8287)
  || (n =? 12288) || (n =? 65279).

Fixpoint trimStart (s : jsstring) : jsstring :=
  match s with
  | [] => []
  | c :: s' => if isWhiteSpace c then trimStart s' else s
  end.

Definition trimEnd (s : jsstring) : jsstring := rev (trimStart (rev s)).

Definition trim (s : jsstring) : jsstring := trimEnd (trimStart s).

Section Arrays.
Context {A : Type}.

(** [arr.some(p)] *)
Definition some (p : A -> bool) (arr : list A) : bool := existsb p arr.

(** [arr.findIndex(p)]: the first index whose element satisfies [p],
    and [-1] when there is none. *)
Fixpoint findIndex (p : A -> bool) (arr : list A) : Z :=
  match arr with
  | [] => -1
  | x :: rest =>
      if p x then 0
      else let i := findIndex p rest in
           if i =? -1 then -1 else i + 1
  end.

(** [arr[i]] for an index: [None] stands for [undefined]. *)
Definition get (arr : list A) (i : Z) : option A :=
  if i <? 0 then None else nth_error arr (Z.to_nat i).

Fixpoint set_nat (arr : list A) (n : nat) (v : A) : list A :=
  match arr, n with
  | [], _ => []
  | _ :: rest, O => v :: rest
  | x :: rest, S n' => x :: set_nat rest n' v
  end.

(** [arr[i] = v] for an index that [findIndex] returned, which always
    lies inside the array (see [findIndex_get]).  Outside of it
    JavaScript would grow the array; the handlers never get there and
    the model leaves the array as it is. *)
Definition set (arr : list A) (i : Z) (v : A) : list A :=
  if i <? 0 then arr else set_nat arr (Z.to_nat i) v.

(** [Array.prototype.sort(cmp)].  ECMA-262 (since the 2019 edition)
    requires the sort to be stable, and for a consistent comparator
    the sorted, stable arrangement is unique ([sort_unique] below), so
    every conforming engine returns what this insertion sort returns.
    [cmp a b > 0] means that [a] goes after [b]. *)
Fixpoint insert (cmp : A -> A -> Z) (x : A) (sorted : list A) : list A :=
  match sorted with
  | [] => [x]
  | y :: rest =>
      if cmp x y >? 0 then y :: insert cmp x rest else x :: sorted
  end.

Fixpoint sort (cmp : A -> A -> Z) (arr : list A) : list A :=
  match arr with
  | [] => []
  | x :: rest => insert cmp x (sort cmp rest)
  end.

End Arrays.

End JS.

Abbreviation jsstring := JS.jsstring.

(* ------------------------------------------------------------------ *)
(** ** Data model: the interfaces and the component state *)

(** [interface Competitor] *)
Record Competitor := mkCompetitor {
  id : jsstring;
  name : jsstring
}.

(** [interface Score] *)
Record Score := mkScore {
  competitorId : jsstring;
  creativity : Z;
  technique : Z;
  presentation : Z
}.

(** The object held by [currentScores]. *)
Record CurrentScores := mkCurrentScores {
  cur_creativity : Z;
  cur_technique : Z;
  cur_presentation : Z
}.

(** [type CategoryKey = 'creativity' | 'technique' | 'presentation'] *)
Inductive CategoryKey := Creativity | Technique | Presentation.

(** The seven [useState] cells of [App]. *)
Record State := mkState {
  competitors : list Competitor;
  scores : list Score;
  isAddCompetitorDialogOpen : bool;
  newCompetitorName : jsstring;
  error : option string;
  currentCompetitorId : jsstring;
  currentScores : CurrentScores
}.

(** The state setters returned by [useState].  The two list cells are
    always set through an updater function of the previous value. *)
Definition setCompetitors (f : list Competitor -> list Competitor) (st : State) : State :=
  mkState (f (competitors st)) (scores st) (isAddCompetitorDialogOpen st)
          (newCompetitorName st) (error st) (currentCompetitorId st) (currentScores st).

Definition setScores (f : list Score -> list Score) (st : State) : State :=
  mkState (competitors st) (f (scores st)) (isAddCompetitorDialogOpen st)
          (newCompetitorName st) (error st) (currentCompetitorId st) (currentScores st).

Definition setIsAddCompetitorDialogOpen (b : bool) (st : State) : State :=
  mkState (competitors st) (scores st) b
          (newCompetitorName st) (error st) (currentCompetitorId st) (currentScores st).

Definition setNewCompetitorName (s : jsstring) (st : State) : State :=
  mkState (competitors st) (scores st) (isAddCompetitorDialogOpen st)
          s (error st) (currentCompetitorId st) (currentScores st).

Definition setError (e : option string) (st : State) : State :=
  mkState (competitors st) (scores st) (isAddCompetitorDialogOpen st)
          (newCompetitorName st) e (currentCompetitorId st) (currentScores st).

Definition setCurrentCompetitorId (s : jsstring) (st : State) : State :=
  mkState (competitors st) (scores st) (isAddCompetitorDialogOpen st)
          (newCompetitorName st) (error st) s (currentScores st).

Definition setCurrentScores (f : CurrentScores -> CurrentScores) (st : State) : State :=
  mkState (competitors st) (scores st) (isAddCompetitorDialogOpen st)
          (newCompetitorName st) (error st) (currentCompetitorId st) (f (currentScores st)).

(** [{creativity: 0, technique: 0, presentation: 0}] *)
Definition zeroScores : CurrentScores := mkCurrentScores 0 0 0.

(** The state of the first render, with nothing in local storage. *)
Definition initialState : State :=
  mkState [] [] false [] None [] zeroScores.

(** [{...prev, [category]: value}] *)
Definition withCategory (category : CategoryKey) (value : Z) (prev : CurrentScores) : CurrentScores :=
  match category with
  | Creativity => mkCurrentScores value (cur_technique prev) (cur_presentation prev)
  | Technique => mkCurrentScores (cur_creativity prev) value (cur_presentation prev)
  | Presentation => mkCurrentScores (cur_creativity prev) (cur_technique prev) value
  end.

(** The user actions the rendered page offers. *)
Inductive Event :=
| ClickOpenDialog
| ClickCancel
| DialogOpenChange (open : bool)
| TypeName (text : jsstring)
| ClickAddCompetitor (uuid : jsstring)
| ClickRemove (removedId : jsstring)
| SelectCompetitor (value : jsstring)
| EnterScore (category : CategoryKey) (value : Z)
| ClickSubmitScore.

(** Setters are applied one after the other, as the handlers call them. *)
Notation "st |> f" := (f st) (at level 50, left associativity, only parsing).

(** Membership of an identifier among the roster's identifiers. *)
Definition inRoster (cid : jsstring) (roster : list Competitor) : bool :=
  existsb (fun competitor => JS.eqb (id competitor) cid) roster.

(** Membership of an identifier among the score records' identifiers. *)
Definition hasScore (cid : jsstring) (records : list Score) : bool :=
  existsb (fun score => JS.eqb (competitorId score) cid) records.

(** The environment's [crypto.randomUUID()] never returns the empty
    string nor an identifier the state already holds. *)
Definition freshId (uuid : jsstring) (st : State) : bool :=
  JS.truthy uuid
  && negb (inRoster uuid (competitors st))
  && negb (hasScore uuid (scores st))
  && negb (JS.eqb uuid (currentCompetitorId st)).

(** The score form and the leaderboard are rendered only when
    [competitors.length > 0]. *)
Definition formShown (st : State) : bool :=
  Z.of_nat (List.length (competitors st)) >? 0.

(** Runs a sequence of user actions, refusing one the page does not
    offer in the state where it is attempted. *)
Fixpoint runEvents (enabled : Event -> State -> bool) (step : Event -> State -> State)
    (events : list Event) (st : State) : option State :=
  match events with
  | [] => Some st
  | ev :: rest =>
      if enabled ev st then runEvents enabled step rest (step ev st) else None
  end.

(* ------------------------------------------------------------------ *)
(** ** Variant [src/src/App.tsx] *)

Module AppTsx.

Definition handleAddCompetitor (uuid : jsstring) (st : State) : State :=
  if negb (JS.truthy (JS.trim (newCompetitorName st))) then st
  else if JS.some (fun competitor => JS.eqb (name competitor) (JS.trim (newCompetitorName st)))
                  (competitors st)
  then st |> setError (Some "Competitor name already exists."%string)
  else
    let newCompetitor := mkCompetitor uuid (JS.trim (newCompetitorName st)) in
    st |> setCompetitors (fun prevCompetitors => prevCompetitors ++ [newCompetitor])
       |> setNewCompetitorName (JS.str "")
       |> setIsAddCompetitorDialogOpen false
       |> setError None.

Definition handleRemoveCompetitor (cid : jsstring) (st : State) : State :=
  st |> setCompetitors (fun prevCompetitors =>
          filter (fun competitor => negb (JS.eqb (id competitor) cid)) prevCompetitors)
     |> setScores (fun prevScores =>
          filter (fun score => negb (JS.eqb (competitorId score) cid)) prevScores).

Definition handleScoreChange (category : CategoryKey) (value : Z) (st : State) : State :=
  st |> setCurrentScores (fun prevScores => withCategory category value prevScores).

Definition handleSubmitScore (st : State) : State :=
  if negb (JS.truthy (currentCompetitorId st)) then
    st |> setError (Some "Please select a competitor."%string)
  else
    let newScore :=
      mkScore (currentCompetitorId st)
              (cur_creativity (currentScores st))
              (cur_technique (currentScores st))
              (cur_presentation (currentScores st)) in
    st |> setScores (fun prevScores =>
            let existingScoreIndex :=
              JS.findIndex (fun score => JS.eqb (competitorId score) (competitorId newScore))
                           prevScores in
            if existingScoreIndex >? -1 then
              let updatedScores := prevScores in
              JS.set updatedScores existingScoreIndex newScore
            else prevScores ++ [newScore])
       |> setCurrentScores (fun _ => zeroScores)
       |> setCurrentCompetitorId (JS.str "")
       |> setError None.

Definition getCompetitorScores (st : State) (cid : jsstring) : list Score :=
  filter (fun score => JS.eqb (competitorId score) cid) (scores st).

(** [forEach] with [total += ...] is a left fold over the array.  The
    additions are those of [Z]; they are the additions of the code for
    records whose sums are exact ([exactPoints]). *)
Definition calculateTotalScore (st : State) (cid : jsstring) : Z :=
  let competitorScores := getCompetitorScores st cid in
  fold_left (fun total score =>
               total + (creativity score + technique score + presentation score))
            competitorScores 0.

Definition sortedCompetitors (st : State) : list Competitor :=
  JS.sort (fun a b =>
             let scoreA := calculateTotalScore st (id a) in
             let scoreB := calculateTotalScore st (id b) in
             scoreB - scoreA)
          (competitors st).

(** Which actions the rendered page offers.  The native [select] lists
    the empty option and one option per competitor; the number inputs
    deliver [parseInt(text, 10) || 0], any integer. *)
Definition enabled (ev : Event) (st : State) : bool :=
  match ev with
  | ClickOpenDialog => true
  | ClickCancel | DialogOpenChange _ | TypeName _ => isAddCompetitorDialogOpen st
  | ClickAddCompetitor uuid => isAddCompetitorDialogOpen st && freshId uuid st
  | ClickRemove cid => inRoster cid (competitors st)
  | SelectCompetitor value =>
      formShown st && (negb (JS.truthy value) || inRoster value (competitors st))
  | EnterScore _ _ => formShown st
  | ClickSubmitScore => formShown st
  end.

Definition step (ev : Event) (st : State) : State :=
  match ev with
  | ClickOpenDialog => st |> setIsAddCompetitorDialogOpen true
  | ClickCancel => st |> setIsAddCompetitorDialogOpen false
  | DialogOpenChange open => st |> setIsAddCompetitorDialogOpen open
  | TypeName text => st |> setNewCompetitorName text
  | ClickAddCompetitor uuid => handleAddCompetitor uuid st
  | ClickRemove cid => handleRemoveCompetitor cid st
  | SelectCompetitor value => st |> setCurrentCompetitorId value
  | EnterScore category value => handleScoreChange category value st
  | ClickSubmitScore => handleSubmitScore st
  end.

Definition run (events : list Event) : option State :=
  runEvents enabled step events initialState.

Definition reachable (st : State) : Prop :=
  exists events, run events = Some st.

End AppTsx.

(* ------------------------------------------------------------------ *)
(** ** Variant [src/unnamed/part_001] *)

Module Part001.

Definition handleAddCompetitor (uuid : jsstring) (st : State) : State :=
  if negb (JS.truthy (JS.trim (newCompetitorName st))) then
    st |> setError (Some "Competitor name cannot be empty."%string)
  else if JS.some (fun competitor => JS.eqb (name competitor) (JS.trim (newCompetitorName st)))
                  (competitors st)
  then st |> setError (Some "Competitor name already exists."%string)
  else
    let newCompetitor := mkCompetitor uuid (JS.trim (newCompetitorName st)) in
    st |> setCompetitors (fun prev => prev ++ [newCompetitor])
       |> setNewCompetitorName (JS.str "")
       |> setIsAddCompetitorDialogOpen false
       |> setError None.

(** The updater of [setCompetitors] also resets the score form when the
    roster becomes empty; its [prev] is the roster of the state the click
    is handled in. *)
Definition handleRemoveCompetitor (cid : jsstring) (st : State) : State :=
  let updatedCompetitors :=
    filter (fun competitor => negb (JS.eqb (id competitor) cid)) (competitors st) in
  let st' :=
    if Z.of_nat (List.length updatedCompetitors) =? 0 then
      st |> setCurrentScores (fun _ => zeroScores)
         |> setCurrentCompetitorId (JS.str "")
    else st in
  st' |> setCompetitors (fun _ => updatedCompetitors)
      |> setScores (fun prev =>
           filter (fun score => negb (JS.eqb (competitorId score) cid)) prev).

Definition handleScoreChange (category : CategoryKey) (value : Z) (st : State) : State :=
  st |> setCurrentScores (fun prev => withCategory category value prev).

(** [existingScore] is read at an index [findIndex] returned, so it is
    never [undefined]; the branch for [undefined] is dead code of the
    model (see [findIndex_get]). *)
Definition handleSubmitScore (st : State) : State :=
  if negb (JS.truthy (currentCompetitorId st)) then
    st |> setError (Some "Please select a competitor."%string)
  else
    let newScore :=
      mkScore (currentCompetitorId st)
              (cur_creativity (currentScores st))
              (cur_technique (currentScores st))
              (cur_presentation (currentScores st)) in
    st |> setScores (fun prevScores =>
            let existingIndex :=
              JS.findIndex (fun score => JS.eqb (competitorId score) (competitorId newScore))
                           prevScores in
            if existingIndex >? -1 then
              let updatedScores := prevScores in
              match JS.get updatedScores existingIndex with
              | Some existingScore =>
                  JS.set updatedScores existingIndex
                    (mkScore (competitorId newScore)
                             (creativity existingScore + creativity newScore)
                             (technique existingScore + technique newScore)
                             (presentation existingScore + presentation newScore))
              | None => updatedScores
              end
            else prevScores ++ [newScore])
       |> setCurrentScores (fun _ => zeroScores)
       |> setCurrentCompetitorId (JS.str "")
       |> setError None.

Definition getCompetitorScores (st : State) (cid : jsstring) : list Score :=
  filter (fun score => JS.eqb (competitorId score) cid) (scores st).

Definition calculateTotalScore (st : State) (cid : jsstring) : Z :=
  fold_left (fun total score =>
               total + creativity score + technique score + presentation score)
            (getCompetitorScores st cid) 0.

Definition sortedCompetitors (st : State) : list Competitor :=
  JS.sort (fun a b => calculateTotalScore st (id b) - calculateTotalScore st (id a))
          (competitors st).

(** Which actions the rendered page offers.  The select lists one item
    per competitor and no empty item; a star rating delivers a number
    between 0 and 10; closing the dialog from outside clears the name
    and the error. *)
Definition enabled (ev : Event) (st : State) : bool :=
  match ev with
  | ClickOpenDialog => true
  | ClickCancel | DialogOpenChange _ | TypeName _ => isAddCompetitorDialogOpen st
  | ClickAddCompetitor uuid => isAddCompetitorDialogOpen st && freshId uuid st
  | ClickRemove cid => inRoster cid (competitors st)
  | SelectCompetitor value => formShown st && inRoster value (competitors st)
  | EnterScore _ value => formShown st && (0 <=? value) && (value <=? 10)
  | ClickSubmitScore => formShown st
  end.

Definition step (ev : Event) (st : State) : State :=
  match ev with
  | ClickOpenDialog => st |> setIsAddCompetitorDialogOpen true
  | ClickCancel => st |> setIsAddCompetitorDialogOpen false
  | DialogOpenChange open =>
      let st' := st |> setIsAddCompetitorDialogOpen open in
      if negb open then st' |> setNewCompetitorName (JS.str "") |> setError None
      else st'
  | TypeName text => st |> setNewCompetitorName text
  | ClickAddCompetitor uuid => handleAddCompetitor uuid st
  | ClickRemove cid => handleRemoveCompetitor cid st
  | SelectCompetitor value => st |> setCurrentCompetitorId value
  | EnterScore category value => handleScoreChange category value st
  | ClickSubmitScore => handleSubmitScore st
  end.

Definition run (events : list Event) : option State :=
  runEvents enabled step events initialState.

Definition reachable (st : State) : Prop :=
  exists events, run events = Some st.

End Part001.

(* ------------------------------------------------------------------ *)
(** ** Vocabulary of the properties *)

(** Descending order of a numeric key. *)
Definition descending {A : Type} (key : A -> Z) (a b : A) : Prop := key b <= key a.

(** [a] occurs somewhere before [b] in [l]. *)
Definition before {A : Type} (a b : A) (l : list A) : Prop :=
  exists l1 l2 l3, l = l1 ++ a :: l2 ++ b :: l3.

(** A leaderboard of [roster] for the totals [total]: the same
    competitors, in descending order of their totals, competitors of
    equal total in the order of the roster. *)
Definition isLeaderboard (total : jsstring -> Z) (roster board : list Competitor) : Prop :=
  Permutation roster board /\
  StronglySorted (descending (fun c => total (id c))) board /\
  (forall t, filter (fun c => total (id c) =? t) board
             = filter (fun c => total (id c) =? t) roster) /\
  (forall a b, total (id a) = total (id b) -> (before a b board <-> before a b roster)).

(** The record a submission builds from the score form. *)
Definition newScoreOf (st : State) : Score :=
  mkScore (currentCompetitorId st)
          (cur_creativity (currentScores st))
          (cur_technique (currentScores st))
          (cur_presentation (currentScores st)).

(** The state a successful submission leaves, given the new score list:
    the form is reset and the error is cleared. *)
Definition submitted (st : State) (records : list Score) : State :=
  mkState (competitors st) records (isAddCompetitorDialogOpen st)
          (newCompetitorName st) None [] zeroScores.

(** The two combination policies for a repeated submission. *)
Definition overwritten (existing new : Score) : Score := new.

Definition accumulated (existing new : Score) : Score :=
  mkScore (competitorId new)
          (creativity existing + creativity new)
          (technique existing + technique new)
          (presentation existing + presentation new).

(** Every score record refers to a competitor of the roster. *)
Definition scoresReferToRoster (st : State) : bool :=
  forallb (fun score => inRoster (competitorId score) (competitors st)) (scores st).

(** At most one score record per competitor identifier. *)
Definition oneRecordPerCompetitor (records : list Score) : Prop :=
  NoDup (List.map competitorId records).

(** The selected identifier is one the select control lists: no
    selection, or a competitor of the roster. *)
Definition selectionOffered (st : State) : bool :=
  negb (JS.truthy (currentCompetitorId st))
  || inRoster (currentCompetitorId st) (competitors st).

(** Names are stored the way [handleAddCompetitor] stores them:
    trimmed and not empty. *)
Definition namesTrimmed (roster : list Competitor) : Prop :=
  forall c, In c roster -> JS.trim (name c) = name c /\ name c <> [].

(** What a removal of [cid] leads to, from [st] to [st']: the
    competitors and the score records of [cid] are gone and the others
    stay; the total of [cid] is 0 and [cid] is not on the leaderboard;
    when [cid] is not in the roster, the roster is the one before, and
    so is the score list provided no record carries [cid] (as is the
    case when every record refers to the roster). *)
Definition removalOutcome (total : State -> jsstring -> Z)
    (board : State -> list Competitor) (cid : jsstring) (st st' : State) : Prop :=
  competitors st' = filter (fun c => negb (JS.eqb (id c) cid)) (competitors st)
  /\ scores st' = filter (fun r => negb (JS.eqb (competitorId r) cid)) (scores st)
  /\ inRoster cid (competitors st') = false
  /\ hasScore cid (scores st') = false
  /\ total st' cid = 0
  /\ (forall c, In c (board st') -> id c <> cid)
  /\ (inRoster cid (competitors st) = false -> competitors st' = competitors st)
  /\ (inRoster cid (competitors st) = false -> hasScore cid (scores st) = false ->
      scores st' = scores st)
  /\ (inRoster cid (competitors st) = false -> scoresReferToRoster st = true ->
      scores st' = scores st).

(** How a submission for a selected competitor changes the score list:
    without a record of the competitor, the record of the form is
    appended; with one, [combine] of the first such record and the
    record of the form takes its place and the list keeps its length. *)
Definition submissionPolicy (submit : State -> State)
    (combine : Score -> Score -> Score) : Prop :=
  (forall st,
     currentCompetitorId st <> [] ->
     hasScore (currentCompetitorId st) (scores st) = false ->
     scores (submit st) = scores st ++ [newScoreOf st])
  /\ (forall st,
        currentCompetitorId st <> [] ->
        hasScore (currentCompetitorId st) (scores st) = true ->
        exists l1 r l2,
          scores st = l1 ++ r :: l2 /\
          competitorId r = currentCompetitorId st /\
          hasScore (currentCompetitorId st) l1 = false /\
          competitorId (combine r (newScoreOf st)) = currentCompetitorId st /\
          scores (submit st) = l1 ++ combine r (newScoreOf st) :: l2).

(** Sample data. *)
Definition aliceId : jsstring := JS.str "3b241101-e2bb-4255-8caf-4136c566a962".
Definition bobId : jsstring := JS.str "9c5b94b1-35ad-49bb-b118-8e8fc24abf80".
Definition alice : Competitor := mkCompetitor aliceId (JS.str "Alice").
Definition bob : Competitor := mkCompetitor bobId (JS.str "Bob").

(** Alice and Bob are added, Alice is selected and scored 5, 3, 2 in the
    form, and then Alice is removed while still selected. *)
Definition removeSelected : list Event :=
  [ ClickOpenDialog; TypeName (JS.str "Alice"); ClickAddCompetitor aliceId;
    ClickOpenDialog; TypeName (JS.str "Bob"); ClickAddCompetitor bobId;
    SelectCompetitor aliceId;
    EnterScore Creativity 5; EnterScore Technique 3; EnterScore Presentation 2;
    ClickRemove aliceId ].

(** The state after [removeSelected]: the selection is stale. *)
Definition staleSelection : State :=
  mkState [bob] [] false [] None aliceId (mkCurrentScores 5 3 2).

(** The state after [removeSelected] and a click on Submit Score. *)
Definition orphanRecord : State :=
  mkState [bob] [mkScore aliceId 5 3 2] false [] None [] zeroScores.

(** The add dialog, opened, with a name of three blanks typed in. *)
Definition blankName : State :=
  mkState [] [] true (JS.str "   ") None [] zeroScores.

(** Alice is selected, without a record yet, and 5, 3, 2 is in the form. *)
Definition firstSubmission : State :=
  mkState [alice] [] false [] None aliceId (mkCurrentScores 5 3 2).

(** Nobody is selected when the form is submitted. *)
Definition nothingSelected : State :=
  mkState [alice] [mkScore aliceId 5 3 2] false [] None [] (mkCurrentScores 4 4 4).

(** Alice is added and scored 5, 3, 2; then 4, 4, 4 is typed into the
    form with nobody selected.  The run ends in [nothingSelected]. *)
Definition scoreAliceOnce : list Event :=
  [ ClickOpenDialog; TypeName (JS.str "Alice"); ClickAddCompetitor aliceId;
    SelectCompetitor aliceId;
    EnterScore Creativity 5; EnterScore Technique 3; EnterScore Presentation 2;
    ClickSubmitScore;
    EnterScore Creativity 4; EnterScore Technique 4; EnterScore Presentation 4 ].

(** Alice is in the roster and her name is typed into the dialog again. *)
Definition addAliceTwice : list Event :=
  [ ClickOpenDialog; TypeName (JS.str "Alice"); ClickAddCompetitor aliceId;
    ClickOpenDialog; TypeName (JS.str "Alice") ].

Definition duplicateName : State :=
  mkState [alice] [] true (JS.str "Alice") None [] zeroScores.

(** Alice is selected again after a first score of 5, 3, 2. *)
Definition secondSubmission : State :=
  mkState [alice] [mkScore aliceId 5 3 2] false [] None aliceId (mkCurrentScores 1 2 3).

(* ------------------------------------------------------------------ *)
(** ** The rest of the component: the star rating and the table *)

(** The [StarRating] component of part_001.  Its own state is the
    hovered star number, 0 when no star is hovered. *)
Module StarRating.

(** [Array.from({ length: 10 }, (_, i) => i + 1)] *)
Definition starNumbers : list Z :=
  List.map (fun i => Z.of_nat i + 1) (seq 0 10).

(** The value [handleClick] hands to [onChange]. *)
Definition handleClick (value starNumber : Z) : Z :=
  if starNumber =? value then 0 else starNumber.

(** The hovered star after [handleMouseEnter] and [handleMouseLeave]. *)
Definition handleMouseEnter (starNumber : Z) (hoverValue : Z) : Z := starNumber.

Definition handleMouseLeave (hoverValue : Z) : Z := 0.

(** [hoverValue ? starNumber <= hoverValue : starNumber <= value];
    the number 0 is falsy. *)
Definition isFilled (hoverValue value starNumber : Z) : bool :=
  if negb (hoverValue =? 0) then starNumber <=? hoverValue
  else starNumber <=? value.

(** The stars drawn filled. *)
Definition filledStars (hoverValue value : Z) : list Z :=
  filter (isFilled hoverValue value) starNumbers.

End StarRating.

(** [currentScores[category.key]] *)
Definition categoryValue (category : CategoryKey) (form : CurrentScores) : Z :=
  match category with
  | Creativity => cur_creativity form
  | Technique => cur_technique form
  | Presentation => cur_presentation form
  end.

(** A click on star [starNumber] of the rating of [category] in
    part_001: [StarRating] is given [currentScores[category.key]] as its
    value and [handleScoreChange(category.key, newValue)] as [onChange]. *)
Definition clickStar (category : CategoryKey) (starNumber : Z) (st : State) : State :=
  Part001.handleScoreChange category
    (StarRating.handleClick (categoryValue category (currentScores st)) starNumber) st.

(** [arr.map((x, index) => ...)] *)
Fixpoint mapFrom {A B : Type} (f : A -> Z -> B) (index : Z) (arr : list A) : list B :=
  match arr with
  | [] => []
  | x :: rest => f x index :: mapFrom f (index + 1) rest
  end.

Definition mapIndexed {A B : Type} (f : A -> Z -> B) (arr : list A) : list B :=
  mapFrom f 0 arr.

(** One [TableRow] of the leaderboard: the cells from left to right. *)
Record LeaderboardRow := mkLeaderboardRow {
  rank : Z;
  shownName : jsstring;
  shownCreativity : Z;
  shownTechnique : Z;
  shownPresentation : Z;
  shownTotal : Z
}.

(** The body of the leaderboard table, the same in both variants:
    [getCompetitorScores(competitor.id)[0] || {creativity: 0, ...}]
    feeds the three category cells. *)
Definition tableBody (getCompetitorScores : jsstring -> list Score)
    (calculateTotalScore : jsstring -> Z) (sortedCompetitors : list Competitor)
    : list LeaderboardRow :=
  mapIndexed (fun competitor index =>
     let competitorScores :=
       match getCompetitorScores (id competitor) with
       | first :: _ =>
           mkCurrentScores (creativity first) (technique first) (presentation first)
       | [] => mkCurrentScores 0 0 0
       end in
     mkLeaderboardRow (index + 1) (name competitor)
                      (cur_creativity competitorScores)
                      (cur_technique competitorScores)
                      (cur_presentation competitorScores)
                      (calculateTotalScore (id competitor)))
    sortedCompetitors.

Module AppTsxView.

Definition leaderboardRows (st : State) : list LeaderboardRow :=
  tableBody (AppTsx.getCompetitorScores st) (AppTsx.calculateTotalScore st)
            (AppTsx.sortedCompetitors st).

End AppTsxView.

Module Part001View.

Definition leaderboardRows (st : State) : list LeaderboardRow :=
  tableBody (Part001.getCompetitorScores st) (Part001.calculateTotalScore st)
            (Part001.sortedCompetitors st).

End Part001View.

(** The integers JavaScript's numbers hold exactly. *)
Module JSNumber.

(** [Number.MAX_SAFE_INTEGER] *)
Definition MAX_SAFE_INTEGER : Z := 2 ^ 53 - 1.

(** [Number.isSafeInteger(n)] for an integer [n]. *)
Definition isSafeInteger (n : Z) : bool := Z.abs n <=? MAX_SAFE_INTEGER.

End JSNumber.

(** *** More vocabulary *)

(** [c + t + p], which JavaScript evaluates as [(c + t) + p], is the
    integer sum: the three operands and the two sums are safe integers,
    so neither addition rounds. *)
Definition exactSum (c t p : Z) : Prop :=
  JSNumber.isSafeInteger c = true /\
  JSNumber.isSafeInteger t = true /\
  JSNumber.isSafeInteger p = true /\
  JSNumber.isSafeInteger (c + t) = true /\
  JSNumber.isSafeInteger (c + t + p) = true.

Definition exactPoints (r : Score) : Prop :=
  exactSum (creativity r) (technique r) (presentation r).

Definition exactForm (form : CurrentScores) : Prop :=
  exactSum (cur_creativity form) (cur_technique form) (cur_presentation form).

(** What the row of competitor [c] shows, given the totals and the
    score list: the name and the total of [c]; zeros in the three
    category cells when [c] has no record, and otherwise the fields of
    the first record of [c] in the score list. *)
Definition rowShows (total : jsstring -> Z) (records : list Score)
    (c : Competitor) (row : LeaderboardRow) : Prop :=
  shownName row = name c
  /\ shownTotal row = total (id c)
  /\ (hasScore (id c) records = false ->
      shownCreativity row = 0 /\ shownTechnique row = 0 /\ shownPresentation row = 0)
  /\ (forall l1 r l2,
        records = l1 ++ r :: l2 -> competitorId r = id c ->
        hasScore (id c) l1 = false ->
        shownCreativity row = creativity r /\
        shownTechnique row = technique r /\
        shownPresentation row = presentation r).

(** The points of a record and of the score form. *)
Definition points (r : Score) : Z := creativity r + technique r + presentation r.

Definition formPoints (form : CurrentScores) : Z :=
  cur_creativity form + cur_technique form + cur_presentation form.

(** The points of a list of records, added up. *)
Definition sumPoints (records : list Score) : Z :=
  fold_right (fun r rest => points r + rest) 0 records.



(** No two competitors of the roster share a name, or an identifier. *)
Definition namesUnique (roster : list Competitor) : Prop :=
  NoDup (List.map name roster).

Definition idsUnique (roster : list Competitor) : Prop :=
  NoDup (List.map id roster) /\ (forall c, In c roster -> id c <> []).

(** The typed name, trimmed, is not empty and no competitor has it. *)
Definition nameIsNew (st : State) : Prop :=
  JS.trim (newCompetitorName st) <> [] /\
  (forall c, In c (competitors st) -> name c <> JS.trim (newCompetitorName st)).

(** Every value of the form is one a star rating can hold. *)
Definition formWithinStars (form : CurrentScores) : Prop :=
  (0 <= cur_creativity form <= 10) /\
  (0 <= cur_technique form <= 10) /\
  (0 <= cur_presentation form <= 10).

Definition recordsNonNegative (records : list Score) : Prop :=
  forall r, In r records ->
    0 <= creativity r /\ 0 <= technique r /\ 0 <= presentation r.

(** The score records refer to the roster and the selection is one the
    select control lists. *)
Definition soundSelection (st : State) : Prop :=
  scoresReferToRoster st = true /\ selectionOffered st = true.

(** The action is a click on Remove for the selected competitor. *)
Definition removesSelected (ev : Event) (st : State) : bool :=
  match ev with
  | ClickRemove cid => JS.eqb cid (currentCompetitorId st)
  | _ => false
  end.

(** The star numbers from 1 to [n]. *)
Definition starsUpTo (n : Z) : list Z :=
  List.map (fun i => Z.of_nat i + 1) (seq 0 (Z.to_nat n)).

(** With an empty roster nothing is selected and the form is zero. *)
Definition formResetWhenEmpty (st : State) : Prop :=
  competitors st = [] ->
  currentCompetitorId st = [] /\ currentScores st = zeroScores.

(* ------------------------------------------------------------------ *)
(** ** Facts about the JavaScript primitives *)

Module JSFacts.

Lemma eqb_eq (a b : jsstring) : JS.eqb a b = true <-> a = b.
Proof.
  revert b; induction a as [|x a IH]; intros [|y b]; simpl; split;
    try congruence; try reflexivity.
  - intros H. apply andb_true_iff in H as [Hx Hab].
    apply N.eqb_eq in Hx. apply IH in Hab. congruence.
  - intros H. injection H as -> ->.
    rewrite N.eqb_refl. simpl. now apply IH.
Qed.

Lemma eqb_refl (a : jsstring) : JS.eqb a a = true.
Proof. now apply eqb_eq. Qed.

Lemma eqb_neq (a b : jsstring) : JS.eqb a b = false <-> a <> b.
Proof.
  split.
  - intros H Hab. apply eqb_eq in Hab. congruence.
  - intros H. destruct (JS.eqb a b) eqn:E; [|reflexivity].
    apply eqb_eq in E. contradiction.
Qed.

Lemma eqb_sym (a b : jsstring) : JS.eqb a b = JS.eqb b a.
Proof.
  destruct (JS.eqb a b) eqn:E.
  - apply eqb_eq in E. subst. symmetry. apply eqb_refl.
  - symmetry. apply eqb_neq. apply eqb_neq in E. congruence.
Qed.

Lemma truthy_false (s : jsstring) : JS.truthy s = false <-> s = [].
Proof. destruct s; simpl; split; congruence. Qed.

Lemma truthy_true (s : jsstring) : JS.truthy s = true <-> s <> [].
Proof. destruct s; simpl; split; congruence. Qed.

Section Arrays.
Context {A : Type}.
Implicit Types (p : A -> bool) (l : list A).

Lemma findIndex_bounds p l :
  -1 <= JS.findIndex p l /\ JS.findIndex p l < Z.of_nat (List.length l).
Proof.
  induction l as [|x l IH]; simpl; [lia|].
  destruct (p x); [lia|].
  destruct (JS.findIndex p l =? -1) eqn:E; lia.
Qed.

Lemma findIndex_none p l :
  JS.findIndex p l = -1 <-> existsb p l = false.
Proof.
  induction l as [|x l IH]; simpl; [tauto|].
  destruct (p x); simpl; [split; discriminate|].
  pose proof (findIndex_bounds p l) as Hb.
  destruct (JS.findIndex p l =? -1) eqn:E.
  - apply Z.eqb_eq in E. tauto.
  - apply Z.eqb_neq in E. split; [lia|]. intros H. apply IH in H. lia.
Qed.

(** A successful [findIndex] points at the first matching element. *)
Lemma findIndex_split p l :
  (JS.findIndex p l >? -1) = true ->
  exists l1 x l2,
    l = l1 ++ x :: l2 /\ p x = true /\ existsb p l1 = false /\
    JS.findIndex p l = Z.of_nat (List.length l1).
Proof.
  induction l as [|x l IH]; simpl; [discriminate|].
  destruct (p x) eqn:Hp.
  - intros _. exists [], x, l. auto.
  - destruct (JS.findIndex p l =? -1) eqn:E; [discriminate|].
    intros _. apply Z.eqb_neq in E.
    pose proof (findIndex_bounds p l) as Hb.
    destruct IH as (l1 & y & l2 & -> & Hy & Hl1 & Hi).
    { apply Z.gtb_lt. lia. }
    exists (x :: l1), y, l2. simpl. rewrite Hp, Hl1, Hi.
    repeat split; auto. lia.
Qed.

Lemma findIndex_app_first p l1 x l2 :
  existsb p l1 = false -> p x = true ->
  JS.findIndex p (l1 ++ x :: l2) = Z.of_nat (List.length l1).
Proof.
  intros H1 Hx. induction l1 as [|y l1 IH]; simpl in *.
  - now rewrite Hx.
  - apply orb_false_iff in H1 as [Hy H1]. rewrite Hy, (IH H1).
    destruct (Z.of_nat (List.length l1) =? -1) eqn:E; [apply Z.eqb_eq in E|]; lia.
Qed.

Lemma get_middle l1 x l2 :
  JS.get (l1 ++ x :: l2) (Z.of_nat (List.length l1)) = Some x.
Proof.
  unfold JS.get. destruct (Z.ltb_spec (Z.of_nat (List.length l1)) 0); [lia|].
  rewrite Nat2Z.id. clear. induction l1; simpl; auto.
Qed.

Lemma set_middle l1 x l2 v :
  JS.set (l1 ++ x :: l2) (Z.of_nat (List.length l1)) v = l1 ++ v :: l2.
Proof.
  unfold JS.set. destruct (Z.ltb_spec (Z.of_nat (List.length l1)) 0); [lia|].
  rewrite Nat2Z.id. clear. induction l1; simpl; congruence.
Qed.

(** The element at a successful [findIndex] is defined and matches. *)
Lemma findIndex_get p l :
  (JS.findIndex p l >? -1) = true ->
  exists x, JS.get l (JS.findIndex p l) = Some x /\ p x = true.
Proof.
  intros H. destruct (findIndex_split p l H) as (l1 & x & l2 & -> & Hx & _ & Hi).
  exists x. rewrite Hi. split; [apply get_middle|exact Hx].
Qed.

(** *** [sort] with a comparator that subtracts keys *)

Variable key : A -> Z.
Variable cmp : A -> A -> Z.
Hypothesis cmp_key : forall a b, cmp a b = key b - key a.

Lemma insert_perm x l : Permutation (x :: l) (JS.insert cmp x l).
Proof.
  induction l as [|y l IH]; simpl; [reflexivity|].
  destruct (cmp x y >? 0); [|reflexivity].
  rewrite perm_swap. now constructor.
Qed.

Lemma sort_perm l : Permutation l (JS.sort cmp l).
Proof.
  induction l as [|x l IH]; simpl; [constructor|].
  rewrite <- insert_perm. now constructor.
Qed.

Lemma insert_sorted x l :
  StronglySorted (descending key) l -> StronglySorted (descending key) (JS.insert cmp x l).
Proof.
  induction 1 as [|y l Hs IH Hy]; simpl.
  - repeat constructor.
  - destruct (Z.gtb_spec (cmp x y) 0) as [Hgt|Hle]; rewrite cmp_key in *.
    + constructor; [exact IH|].
      rewrite Forall_forall in *. intros z Hz.
      apply (Permutation_in _ (Permutation_sym (insert_perm x l))) in Hz.
      destruct Hz as [<-|Hz]; [unfold descending; lia|auto].
    + constructor; [now constructor|].
      constructor; [unfold descending; lia|].
      rewrite Forall_forall in *. intros z Hz.
      specialize (Hy z Hz). unfold descending in *. lia.
Qed.

Lemma sort_sorted l : StronglySorted (descending key) (JS.sort cmp l).
Proof.
  induction l as [|x l IH]; simpl; [constructor|now apply insert_sorted].
Qed.

(** Elements of one key keep their relative order. *)
Lemma filter_insert t x l :
  filter (fun a => key a =? t) (JS.insert cmp x l) =
  filter (fun a => key a =? t) (x :: l).
Proof.
  induction l as [|y l IH]; simpl; [reflexivity|].
  destruct (Z.gtb_spec (cmp x y) 0) as [Hgt|Hle]; [|reflexivity].
  rewrite cmp_key in Hgt. simpl in *. rewrite IH.
  destruct (Z.eqb_spec (key y) t), (Z.eqb_spec (key x) t); try reflexivity.
  lia.
Qed.

Lemma sort_stable t l :
  filter (fun a => key a =? t) (JS.sort cmp l) = filter (fun a => key a =? t) l.
Proof.
  induction l as [|x l IH]; simpl; [reflexivity|].
  rewrite filter_insert. simpl. now rewrite IH.
Qed.

(** Two descending lists with the same elements of every key, in the
    same order, are equal: the stable sorted arrangement is unique. *)
Lemma sorted_stable_unique l1 l2 :
  StronglySorted (descending key) l1 -> StronglySorted (descending key) l2 ->
  (forall t, filter (fun a => key a =? t) l1 = filter (fun a => key a =? t) l2) ->
  l1 = l2.
Proof.
  intros H1. revert l2. induction H1 as [|a l1 Hs1 IH Ha]; intros l2 H2 Hf.
  - destruct l2 as [|b l2]; [reflexivity|].
    specialize (Hf (key b)). simpl in Hf. rewrite Z.eqb_refl in Hf. discriminate.
  - destruct H2 as [|b l2 Hs2 Hb].
    + specialize (Hf (key a)). simpl in Hf. rewrite Z.eqb_refl in Hf. discriminate.
    + assert (Hab : key a = key b).
      { rewrite Forall_forall in Ha, Hb. unfold descending in *.
        assert (Hin_a : In a (filter (fun c => key c =? key a) (b :: l2))).
        { rewrite <- Hf. simpl. rewrite Z.eqb_refl. now left. }
        assert (Hin_b : In b (filter (fun c => key c =? key b) (a :: l1))).
        { rewrite Hf. simpl. rewrite Z.eqb_refl. now left. }
        apply filter_In in Hin_a as [Hin_a _]. apply filter_In in Hin_b as [Hin_b _].
        destruct Hin_a as [->|Hin_a]; [reflexivity|].
        destruct Hin_b as [->|Hin_b]; [reflexivity|].
        specialize (Ha _ Hin_b). specialize (Hb _ Hin_a). lia. }
      assert (a = b) as ->.
      { specialize (Hf (key a)). simpl in Hf.
        rewrite <- Hab, Z.eqb_refl in Hf. congruence. }
      f_equal. apply IH; [exact Hs2|].
      intros t. specialize (Hf t). simpl in Hf.
      destruct (key b =? t); congruence.
Qed.

(** Whatever a conforming engine returns for this comparator (a
    descending, stable arrangement) is what [JS.sort] returns. *)
Lemma sort_unique l l' :
  StronglySorted (descending key) l' ->
  (forall t, filter (fun a => key a =? t) l' = filter (fun a => key a =? t) l) ->
  l' = JS.sort cmp l.
Proof.
  intros Hs Hf. apply sorted_stable_unique; [exact Hs|apply sort_sorted|].
  intros t. now rewrite Hf, sort_stable.
Qed.

End Arrays.

End JSFacts.

(** Facts about [trim] and about relative order in arrays. *)
Module TextFacts.

Lemma length_trimStart (s : jsstring) :
  (List.length (JS.trimStart s) <= List.length s)%nat.
Proof.
  induction s as [|c s IH]; simpl; [lia|].
  destruct (JS.isWhiteSpace c); simpl; lia.
Qed.

Lemma trimStart_idem (s : jsstring) : JS.trimStart (JS.trimStart s) = JS.trimStart s.
Proof.
  induction s as [|c s IH]; simpl; [reflexivity|].
  destruct (JS.isWhiteSpace c) eqn:E; [exact IH|].
  simpl. now rewrite E.
Qed.

Lemma trimStart_snoc (s : jsstring) (c : JS.code_unit) :
  JS.isWhiteSpace c = false -> JS.trimStart (s ++ [c]) = JS.trimStart s ++ [c].
Proof.
  intros Hc. induction s as [|d s IH]; simpl.
  - now rewrite Hc.
  - destruct (JS.isWhiteSpace d); [exact IH|reflexivity].
Qed.

Lemma trimStart_head (c : JS.code_unit) (s : jsstring) :
  JS.trimStart (c :: s) = c :: s -> JS.isWhiteSpace c = false.
Proof.
  simpl. destruct (JS.isWhiteSpace c); [|reflexivity].
  intros H. pose proof (length_trimStart s) as Hl.
  rewrite H in Hl. simpl in Hl. lia.
Qed.

Lemma trimStart_trimEnd (s : jsstring) :
  JS.trimStart s = s -> JS.trimStart (JS.trimEnd s) = JS.trimEnd s.
Proof.
  destruct s as [|c s]; [reflexivity|].
  intros H. apply trimStart_head in H.
  unfold JS.trimEnd. simpl rev.
  rewrite (trimStart_snoc _ _ H), rev_app_distr. simpl. now rewrite H.
Qed.

Lemma trim_idem (s : jsstring) : JS.trim (JS.trim s) = JS.trim s.
Proof.
  unfold JS.trim.
  rewrite (trimStart_trimEnd (JS.trimStart s) (trimStart_idem s)).
  unfold JS.trimEnd at 1 2. now rewrite rev_involutive, trimStart_idem.
Qed.

End TextFacts.

Module OrderFacts.

Section Order.
Context {A : Type}.
Implicit Types (f : A -> bool) (l : list A).

Lemma filter_split f l : forall m1 a m2,
  filter f l = m1 ++ a :: m2 ->
  exists l1 l2, l = l1 ++ a :: l2 /\ filter f l1 = m1 /\ filter f l2 = m2.
Proof.
  induction l as [|x l IH]; intros m1 a m2 H; simpl in H.
  - destruct m1; discriminate.
  - destruct (f x) eqn:Hx.
    + destruct m1 as [|y m1]; simpl in H; injection H as -> H.
      * exists [], l. auto.
      * destruct (IH _ _ _ H) as (l1 & l2 & -> & H1 & H2).
        exists (y :: l1), l2. simpl. rewrite Hx, H1. auto.
    + destruct (IH _ _ _ H) as (l1 & l2 & -> & H1 & H2).
      exists (x :: l1), l2. simpl. rewrite Hx. auto.
Qed.

Lemma before_filter_intro f a b l :
  f a = true -> f b = true -> before a b l -> before a b (filter f l).
Proof.
  intros Ha Hb (l1 & l2 & l3 & ->).
  exists (filter f l1), (filter f l2), (filter f l3).
  rewrite filter_app. simpl. rewrite Ha, filter_app. simpl. now rewrite Hb.
Qed.

Lemma before_filter_elim f a b l :
  before a b (filter f l) -> before a b l.
Proof.
  intros (m1 & m2 & m3 & H).
  apply filter_split in H as (l1 & l2 & -> & _ & H).
  apply filter_split in H as (l2a & l2b & -> & _ & _).
  now exists l1, l2a, l2b.
Qed.

(** Lists that agree on the elements of one class agree on the
    relative order of two elements of that class. *)
Lemma before_same_filter f a b l l' :
  f a = true -> f b = true -> filter f l = filter f l' ->
  before a b l -> before a b l'.
Proof.
  intros Ha Hb Hf H. apply (before_filter_elim f). rewrite <- Hf.
  now apply before_filter_intro.
Qed.

End Order.

End OrderFacts.

(* ------------------------------------------------------------------ *)
(** ** Facts about the handlers *)

Module HandlerFacts.

Import JSFacts.

(** *** Score records of one competitor *)

Lemma hasScore_false (cid : jsstring) (records : list Score) :
  hasScore cid records = false <->
  forall r, In r records -> competitorId r <> cid.
Proof.
  unfold hasScore. induction records as [|s l IH]; simpl.
  - split; [intros _ r []|reflexivity].
  - rewrite orb_false_iff, IH, eqb_neq. split.
    + intros [Hs Hl] r [<-|Hr]; auto.
    + intros H. split; [apply H; now left|]. intros r Hr. apply H. now right.
Qed.

Lemma hasScore_In (cid : jsstring) (records : list Score) :
  hasScore cid records = true <-> In cid (List.map competitorId records).
Proof.
  unfold hasScore. rewrite existsb_exists, in_map_iff.
  split; intros (r & H1 & H2).
  - apply eqb_eq in H2. eauto.
  - exists r. split; [assumption|]. now apply eqb_eq.
Qed.

Lemma inRoster_In (cid : jsstring) (roster : list Competitor) :
  inRoster cid roster = true <-> In cid (List.map id roster).
Proof.
  unfold inRoster. rewrite existsb_exists, in_map_iff.
  split; intros (c & H1 & H2).
  - apply eqb_eq in H2. eauto.
  - exists c. split; [assumption|]. now apply eqb_eq.
Qed.

Lemma filter_none (cid : jsstring) (records : list Score) :
  hasScore cid records = false ->
  filter (fun score => JS.eqb (competitorId score) cid) records = [].
Proof.
  unfold hasScore. induction records as [|s l IH]; simpl; [reflexivity|].
  intros H. apply orb_false_iff in H as [Hs Hl]. rewrite Hs. auto.
Qed.

Lemma filter_single (r : Score) (records : list Score) :
  oneRecordPerCompetitor records -> In r records ->
  filter (fun score => JS.eqb (competitorId score) (competitorId r)) records = [r].
Proof.
  unfold oneRecordPerCompetitor.
  induction records as [|s l IH]; simpl; [intros _ []|].
  intros Hnd Hin. inversion Hnd as [|? ? Hnotin Hnd']; subst.
  destruct Hin as [->|Hin].
  - rewrite eqb_refl. f_equal. apply filter_none.
    destruct (hasScore (competitorId r) l) eqn:E; [|reflexivity].
    apply hasScore_In in E. contradiction.
  - destruct (JS.eqb (competitorId s) (competitorId r)) eqn:E.
    + apply eqb_eq in E. exfalso. apply Hnotin. rewrite E. now apply in_map.
    + auto.
Qed.

(** The cascade of [handleRemoveCompetitor] leaves no record behind. *)
Lemma hasScore_filter_out (cid : jsstring) (records : list Score) :
  hasScore cid (filter (fun score => negb (JS.eqb (competitorId score) cid)) records) = false.
Proof.
  apply hasScore_false. intros r Hr. apply filter_In in Hr as [_ Hr].
  apply negb_true_iff in Hr. now apply eqb_neq.
Qed.

Lemma inRoster_filter_out (cid : jsstring) (roster : list Competitor) :
  inRoster cid (filter (fun competitor => negb (JS.eqb (id competitor) cid)) roster) = false.
Proof.
  unfold inRoster. induction roster as [|c l IH]; simpl; [reflexivity|].
  destruct (JS.eqb (id c) cid) eqn:E; simpl; [exact IH|]. now rewrite E.
Qed.

Lemma filter_out_absent_scores (cid : jsstring) (records : list Score) :
  hasScore cid records = false ->
  filter (fun score => negb (JS.eqb (competitorId score) cid)) records = records.
Proof.
  unfold hasScore. induction records as [|s l IH]; simpl; [reflexivity|].
  intros H. apply orb_false_iff in H as [Hs Hl]. rewrite Hs. simpl. now rewrite IH.
Qed.

Lemma filter_out_absent_roster (cid : jsstring) (roster : list Competitor) :
  inRoster cid roster = false ->
  filter (fun competitor => negb (JS.eqb (id competitor) cid)) roster = roster.
Proof.
  unfold inRoster. induction roster as [|c l IH]; simpl; [reflexivity|].
  intros H. apply orb_false_iff in H as [Hc Hl]. rewrite Hc. simpl. now rewrite IH.
Qed.

Lemma filter_out_twice {A : Type} (f : A -> bool) (l : list A) :
  filter f (filter f l) = filter f l.
Proof.
  induction l as [|x l IH]; simpl; [reflexivity|].
  destruct (f x) eqn:E; simpl; [rewrite E; f_equal|]; exact IH.
Qed.

Lemma oneRecord_filter (f : Score -> bool) (records : list Score) :
  oneRecordPerCompetitor records -> oneRecordPerCompetitor (filter f records).
Proof.
  unfold oneRecordPerCompetitor.
  induction records as [|s l IH]; simpl; [auto|].
  intros Hnd. inversion Hnd as [|? ? Hnotin Hnd']; subst.
  destruct (f s); simpl; [|auto].
  constructor; [|auto]. intros Hin. apply Hnotin.
  apply in_map_iff in Hin as (r & <- & Hr). apply filter_In in Hr as [Hr _].
  now apply in_map.
Qed.

Lemma oneRecord_append (r : Score) (records : list Score) :
  oneRecordPerCompetitor records -> hasScore (competitorId r) records = false ->
  oneRecordPerCompetitor (records ++ [r]).
Proof.
  unfold oneRecordPerCompetitor. intros Hnd Hno.
  rewrite map_app. simpl. apply NoDup_app; [exact Hnd|repeat constructor; auto|].
  intros x Hx [<-|[]]. apply hasScore_In in Hx. congruence.
Qed.

Lemma oneRecord_replace (l1 l2 : list Score) (r r' : Score) :
  competitorId r' = competitorId r ->
  oneRecordPerCompetitor (l1 ++ r :: l2) -> oneRecordPerCompetitor (l1 ++ r' :: l2).
Proof.
  unfold oneRecordPerCompetitor. intros H. rewrite !map_app. simpl. now rewrite H.
Qed.

(** *** Totals *)

Lemma fold_total_shift (l : list Score) (acc : Z) :
  fold_left (fun total score =>
               total + creativity score + technique score + presentation score) l acc
  = fold_left (fun total score =>
                 total + (creativity score + technique score + presentation score)) l acc.
Proof.
  revert acc. induction l as [|s l IH]; intros acc; simpl; [reflexivity|].
  rewrite IH. f_equal. lia.
Qed.

Lemma totals_agree (st : State) (cid : jsstring) :
  Part001.calculateTotalScore st cid = AppTsx.calculateTotalScore st cid.
Proof. apply fold_total_shift. Qed.

Lemma total_none (st : State) (cid : jsstring) :
  hasScore cid (scores st) = false -> AppTsx.calculateTotalScore st cid = 0.
Proof.
  intros H. unfold AppTsx.calculateTotalScore, AppTsx.getCompetitorScores.
  now rewrite filter_none.
Qed.

Lemma total_single (st : State) (r : Score) :
  oneRecordPerCompetitor (scores st) -> In r (scores st) ->
  AppTsx.calculateTotalScore st (competitorId r)
  = creativity r + technique r + presentation r.
Proof.
  intros Hnd Hin. unfold AppTsx.calculateTotalScore, AppTsx.getCompetitorScores.
  rewrite (filter_single r _ Hnd Hin). reflexivity.
Qed.

End HandlerFacts.

Module SubmitFacts.

Import JSFacts HandlerFacts.

Lemma hasScore_split (cid : jsstring) (records : list Score) :
  hasScore cid records = true ->
  exists l1 r l2,
    records = l1 ++ r :: l2 /\ competitorId r = cid /\ hasScore cid l1 = false.
Proof.
  intros H.
  destruct (findIndex_split (fun score => JS.eqb (competitorId score) cid) records)
    as (l1 & r & l2 & -> & Hr & Hl1 & _).
  - pose proof (findIndex_bounds (fun score => JS.eqb (competitorId score) cid) records).
    destruct (Z.eq_dec (JS.findIndex (fun score => JS.eqb (competitorId score) cid) records) (-1))
      as [E|E].
    + apply findIndex_none in E. unfold hasScore in H. congruence.
    + apply Z.gtb_lt. lia.
  - exists l1, r, l2. apply eqb_eq in Hr. auto.
Qed.

Section Submit.
Variable st : State.
Hypothesis selected : currentCompetitorId st <> [].

Lemma findIndex_new :
  hasScore (currentCompetitorId st) (scores st) = false ->
  (JS.findIndex (fun score => JS.eqb (competitorId score) (currentCompetitorId st)) (scores st) >? -1) = false.
Proof.
  intros H. apply findIndex_none in H.
  now rewrite H.
Qed.

Lemma findIndex_existing l1 r l2 :
  scores st = l1 ++ r :: l2 -> competitorId r = currentCompetitorId st ->
  hasScore (currentCompetitorId st) l1 = false ->
  JS.findIndex (fun score => JS.eqb (competitorId score) (currentCompetitorId st)) (scores st) = Z.of_nat (List.length l1).
Proof.
  intros -> Hr Hl1. apply findIndex_app_first; [exact Hl1|].
  now apply eqb_eq.
Qed.

Lemma app_submit_new :
  hasScore (currentCompetitorId st) (scores st) = false ->
  AppTsx.handleSubmitScore st = submitted st (scores st ++ [newScoreOf st]).
Proof.
  intros H. unfold AppTsx.handleSubmitScore.
  apply truthy_true in selected. rewrite selected. simpl negb. cbv iota.
  unfold setScores, setCurrentScores, setCurrentCompetitorId, setError, submitted.
  simpl. now rewrite (findIndex_new H).
Qed.

Lemma part_submit_new :
  hasScore (currentCompetitorId st) (scores st) = false ->
  Part001.handleSubmitScore st = submitted st (scores st ++ [newScoreOf st]).
Proof.
  intros H. unfold Part001.handleSubmitScore.
  apply truthy_true in selected. rewrite selected. simpl negb. cbv iota.
  unfold setScores, setCurrentScores, setCurrentCompetitorId, setError, submitted.
  simpl. now rewrite (findIndex_new H).
Qed.

Lemma app_submit_existing l1 r l2 :
  scores st = l1 ++ r :: l2 -> competitorId r = currentCompetitorId st ->
  hasScore (currentCompetitorId st) l1 = false ->
  AppTsx.handleSubmitScore st
  = submitted st (l1 ++ overwritten r (newScoreOf st) :: l2).
Proof.
  intros Hs Hr Hl1. unfold AppTsx.handleSubmitScore.
  apply truthy_true in selected. rewrite selected. simpl negb. cbv iota.
  unfold setScores, setCurrentScores, setCurrentCompetitorId, setError, submitted.
  simpl. rewrite (findIndex_existing l1 r l2 Hs Hr Hl1).
  destruct (Z.gtb_spec (Z.of_nat (List.length l1)) (-1)); [|lia].
  rewrite Hs, set_middle. reflexivity.
Qed.

Lemma part_submit_existing l1 r l2 :
  scores st = l1 ++ r :: l2 -> competitorId r = currentCompetitorId st ->
  hasScore (currentCompetitorId st) l1 = false ->
  Part001.handleSubmitScore st
  = submitted st (l1 ++ accumulated r (newScoreOf st) :: l2).
Proof.
  intros Hs Hr Hl1. unfold Part001.handleSubmitScore.
  apply truthy_true in selected. rewrite selected. simpl negb. cbv iota.
  unfold setScores, setCurrentScores, setCurrentCompetitorId, setError, submitted.
  simpl. rewrite (findIndex_existing l1 r l2 Hs Hr Hl1).
  destruct (Z.gtb_spec (Z.of_nat (List.length l1)) (-1)); [|lia].
  rewrite Hs, get_middle, set_middle. reflexivity.
Qed.

End Submit.

Lemma app_submit_rejected (st : State) :
  currentCompetitorId st = [] ->
  AppTsx.handleSubmitScore st = setError (Some "Please select a competitor."%string) st.
Proof. intros H. unfold AppTsx.handleSubmitScore. now rewrite H. Qed.

Lemma part_submit_rejected (st : State) :
  currentCompetitorId st = [] ->
  Part001.handleSubmitScore st = setError (Some "Please select a competitor."%string) st.
Proof. intros H. unfold Part001.handleSubmitScore. now rewrite H. Qed.

End SubmitFacts.

(* ------------------------------------------------------------------ *)
(** ** The leaderboard *)

Module LeaderboardFacts.

Import JSFacts OrderFacts.

(** Sorting the roster with a comparator that subtracts totals yields a
    leaderboard. *)
Lemma sort_isLeaderboard (total : jsstring -> Z) (cmp : Competitor -> Competitor -> Z)
    (roster : list Competitor) :
  (forall a b, cmp a b = total (id b) - total (id a)) ->
  isLeaderboard total roster (JS.sort cmp roster).
Proof.
  intros Hcmp. unfold isLeaderboard.
  pose proof (sort_stable (fun c => total (id c)) cmp Hcmp) as Hstable.
  repeat split.
  - apply (sort_perm cmp).
  - apply (sort_sorted (fun c => total (id c)) cmp Hcmp).
  - intros t. apply Hstable.
  - apply (before_same_filter (fun c => total (id c) =? total (id a)));
      [apply Z.eqb_refl|apply Z.eqb_eq; congruence|apply Hstable].
  - apply (before_same_filter (fun c => total (id c) =? total (id a)));
      [apply Z.eqb_refl|apply Z.eqb_eq; congruence|symmetry; apply Hstable].
Qed.

(** The leaderboard of the spec's example: A with 10 points, added
    first, and B with 15 points are listed as B, A. *)
Example leaderboard_B_before_A :
  AppTsx.sortedCompetitors
    (mkState [alice; bob] [mkScore aliceId 5 3 2; mkScore bobId 5 5 5]
             false [] None [] zeroScores)
  = [bob; alice].
Proof. vm_compute. reflexivity. Qed.

End LeaderboardFacts.

(** C1.  For every roster and every score list, [sortedCompetitors] (the
    leaderboard) holds exactly the competitors of the roster, in
    descending order of [calculateTotalScore], and two competitors of
    equal total stand in the leaderboard in the order they have in the
    roster.  Both variants. *)
Theorem leaderboard_sorted_descending_stable (st : State) :
  isLeaderboard (AppTsx.calculateTotalScore st) (competitors st)
                (AppTsx.sortedCompetitors st)
  /\ isLeaderboard (Part001.calculateTotalScore st) (competitors st)
                   (Part001.sortedCompetitors st).
Proof.
  split; apply LeaderboardFacts.sort_isLeaderboard; intros a b; reflexivity.
Qed.

(* ------------------------------------------------------------------ *)
(** ** Totals *)

(** C2.  [calculateTotalScore] of an identifier without a score record is
    0; in any score list in which the competitor has one record, it is
    creativity + technique + presentation of that record, the sum being
    exact; and after 5, 3, 2 is submitted for a selected competitor
    without a record the competitor's total is 10.  Both variants. *)
Theorem total_score_of_record (st : State) (cid : jsstring) :
  (hasScore cid (scores st) = false ->
     AppTsx.calculateTotalScore st cid = 0 /\
     Part001.calculateTotalScore st cid = 0)
  /\ (forall l1 r l2,
        scores st = l1 ++ r :: l2 -> competitorId r = cid ->
        hasScore cid l1 = false -> hasScore cid l2 = false ->
        exactPoints r ->
        AppTsx.calculateTotalScore st cid
          = creativity r + technique r + presentation r /\
        Part001.calculateTotalScore st cid
          = creativity r + technique r + presentation r)
  /\ (currentCompetitorId st = cid -> cid <> [] ->
      currentScores st = mkCurrentScores 5 3 2 ->
      hasScore cid (scores st) = false ->
        AppTsx.calculateTotalScore (AppTsx.handleSubmitScore st) cid = 10 /\
        Part001.calculateTotalScore (Part001.handleSubmitScore st) cid = 10).
Proof.
  repeat apply conj.
  - intros H. rewrite HandlerFacts.totals_agree.
    split; now apply HandlerFacts.total_none.
  - intros l1 r l2 Hs Hr Hl1 Hl2 _. rewrite HandlerFacts.totals_agree.
    unfold AppTsx.calculateTotalScore, AppTsx.getCompetitorScores.
    rewrite Hs, filter_app, (HandlerFacts.filter_none _ _ Hl1). simpl.
    rewrite (HandlerFacts.filter_none _ _ Hl2), <- Hr, JSFacts.eqb_refl. simpl. auto.
  - intros Hsel Hcid Hform Hnone. subst cid.
    rewrite HandlerFacts.totals_agree.
    rewrite (SubmitFacts.app_submit_new st Hcid Hnone),
            (SubmitFacts.part_submit_new st Hcid Hnone).
    unfold AppTsx.calculateTotalScore, AppTsx.getCompetitorScores, submitted, newScoreOf.
    simpl scores. rewrite filter_app, (HandlerFacts.filter_none _ _ Hnone).
    simpl. rewrite JSFacts.eqb_refl, Hform. simpl. auto.
Qed.

Lemma total_score_of_record_witness :
  AppTsx.calculateTotalScore nothingSelected bobId = 0
  /\ Part001.calculateTotalScore nothingSelected aliceId = 5 + 3 + 2
  /\ Part001.calculateTotalScore (Part001.handleSubmitScore firstSubmission) aliceId = 10.
Proof.
  destruct (total_score_of_record nothingSelected bobId) as (Hnone & _ & _).
  destruct (total_score_of_record nothingSelected aliceId) as (_ & Hone & _).
  destruct (total_score_of_record firstSubmission aliceId) as (_ & _ & Hsub).
  repeat apply conj.
  - apply Hnone. reflexivity.
  - apply (Hone [] (mkScore aliceId 5 3 2) []);
      try reflexivity. repeat split.
  - apply Hsub; [reflexivity|discriminate|reflexivity|reflexivity].
Defined.

(* ------------------------------------------------------------------ *)
(** ** Submitting a score *)

(** C10.  When the selected identifier is the empty string,
    [handleSubmitScore] sets the error message and nothing else: the
    roster and the score list are the ones before.  Both variants. *)
Theorem submit_without_selection_sets_only_error (st : State) :
  currentCompetitorId st = [] ->
  (AppTsx.handleSubmitScore st
     = setError (Some "Please select a competitor."%string) st /\
   competitors (AppTsx.handleSubmitScore st) = competitors st /\
   scores (AppTsx.handleSubmitScore st) = scores st)
  /\
  (Part001.handleSubmitScore st
     = setError (Some "Please select a competitor."%string) st /\
   competitors (Part001.handleSubmitScore st) = competitors st /\
   scores (Part001.handleSubmitScore st) = scores st).
Proof.
  intros H.
  rewrite (SubmitFacts.app_submit_rejected st H), (SubmitFacts.part_submit_rejected st H).
  repeat split.
Qed.

Lemma submit_without_selection_sets_only_error_witness :
  AppTsx.handleSubmitScore nothingSelected
    = setError (Some "Please select a competitor."%string) nothingSelected
  /\ scores (Part001.handleSubmitScore nothingSelected) = [mkScore aliceId 5 3 2].
Proof.
  destruct (submit_without_selection_sets_only_error nothingSelected eq_refl)
    as ((Happ & _ & _) & (_ & _ & Hpart)).
  split; [exact Happ|exact Hpart].
Defined.

(** C3 at the failing input.  After [removeSelected], a run of both
    variants, the selected identifier refers to no competitor of the
    roster; [handleSubmitScore] does not fail: it clears the error and
    appends a record for the removed competitor. *)
Lemma submit_for_removed_competitor_is_accepted :
  AppTsx.run removeSelected = Some staleSelection
  /\ Part001.run removeSelected = Some staleSelection
  /\ inRoster (currentCompetitorId staleSelection) (competitors staleSelection) = false
  /\ error (AppTsx.handleSubmitScore staleSelection) = None
  /\ error (Part001.handleSubmitScore staleSelection) = None
  /\ scores staleSelection = []
  /\ scores (AppTsx.handleSubmitScore staleSelection) = [mkScore aliceId 5 3 2]
  /\ scores (Part001.handleSubmitScore staleSelection) = [mkScore aliceId 5 3 2].
Proof. vm_compute. repeat split. Qed.

(** C4 at the failing input.  [removeSelected] followed by a click on
    Submit Score is a run of both variants; before the click every
    score record refers to the roster, after it the record of the
    removed competitor does not. *)
Theorem orphan_record_after_removing_selected_competitor :
  AppTsx.run (removeSelected ++ [ClickSubmitScore]) = Some orphanRecord
  /\ Part001.run (removeSelected ++ [ClickSubmitScore]) = Some orphanRecord
  /\ scoresReferToRoster staleSelection = true
  /\ scoresReferToRoster orphanRecord = false.
Proof. vm_compute. repeat split. Qed.

(** C6.  With a record [r] of the selected competitor in the score
    list, part_001 puts the sums of [r] and the form in its place and
    App.tsx puts the values of the form there; the two score lists can
    differ. *)
Theorem repeated_submission_accumulates_or_overwrites :
  (forall st l1 r l2,
     currentCompetitorId st <> [] ->
     scores st = l1 ++ r :: l2 ->
     competitorId r = currentCompetitorId st ->
     hasScore (currentCompetitorId st) l1 = false ->
     scores (Part001.handleSubmitScore st)
       = l1 ++ mkScore (currentCompetitorId st)
                       (creativity r + cur_creativity (currentScores st))
                       (technique r + cur_technique (currentScores st))
                       (presentation r + cur_presentation (currentScores st)) :: l2
     /\ scores (AppTsx.handleSubmitScore st)
       = l1 ++ mkScore (currentCompetitorId st)
                       (cur_creativity (currentScores st))
                       (cur_technique (currentScores st))
                       (cur_presentation (currentScores st)) :: l2)
  /\ (exists st,
        hasScore (currentCompetitorId st) (scores st) = true /\
        scores (Part001.handleSubmitScore st) <> scores (AppTsx.handleSubmitScore st)).
Proof.
  split.
  - intros st l1 r l2 Hsel Hs Hr Hl1.
    rewrite (SubmitFacts.part_submit_existing st Hsel l1 r l2 Hs Hr Hl1),
            (SubmitFacts.app_submit_existing st Hsel l1 r l2 Hs Hr Hl1).
    split; reflexivity.
  - exists secondSubmission. split; [reflexivity|]. vm_compute. discriminate.
Qed.

Lemma repeated_submission_accumulates_or_overwrites_witness :
  scores (Part001.handleSubmitScore secondSubmission) = [mkScore aliceId 6 5 5]
  /\ scores (AppTsx.handleSubmitScore secondSubmission) = [mkScore aliceId 1 2 3].
Proof.
  destruct repeated_submission_accumulates_or_overwrites as [H _].
  apply (H secondSubmission [] (mkScore aliceId 5 3 2) []);
    [discriminate|reflexivity|reflexivity|reflexivity].
Defined.

(* ------------------------------------------------------------------ *)
(** ** Removing a competitor *)

Module RemoveFacts.

Import JSFacts HandlerFacts.

Lemma app_remove_fields (cid : jsstring) (st : State) :
  competitors (AppTsx.handleRemoveCompetitor cid st)
    = filter (fun c => negb (JS.eqb (id c) cid)) (competitors st)
  /\ scores (AppTsx.handleRemoveCompetitor cid st)
    = filter (fun r => negb (JS.eqb (competitorId r) cid)) (scores st).
Proof. split; reflexivity. Qed.

Lemma part_remove_fields (cid : jsstring) (st : State) :
  competitors (Part001.handleRemoveCompetitor cid st)
    = filter (fun c => negb (JS.eqb (id c) cid)) (competitors st)
  /\ scores (Part001.handleRemoveCompetitor cid st)
    = filter (fun r => negb (JS.eqb (competitorId r) cid)) (scores st).
Proof.
  unfold Part001.handleRemoveCompetitor.
  destruct (Z.of_nat _ =? 0); split; reflexivity.
Qed.

(** A record that refers to the roster does not carry an identifier
    the roster lacks. *)
Lemma refer_absent (cid : jsstring) (st : State) :
  scoresReferToRoster st = true ->
  inRoster cid (competitors st) = false -> hasScore cid (scores st) = false.
Proof.
  unfold scoresReferToRoster. rewrite forallb_forall. intros Href Habsent.
  apply hasScore_false. intros r Hr Heq. specialize (Href r Hr). congruence.
Qed.

(** Any removal that filters both lists has the outcome of the spec. *)
Lemma filtered_removalOutcome total board cid st st' :
  (forall s c, total s c = AppTsx.calculateTotalScore s c) ->
  (forall s, Permutation (competitors s) (board s)) ->
  competitors st' = filter (fun c => negb (JS.eqb (id c) cid)) (competitors st) ->
  scores st' = filter (fun r => negb (JS.eqb (competitorId r) cid)) (scores st) ->
  removalOutcome total board cid st st'.
Proof.
  intros Htotal Hboard Hc Hs. unfold removalOutcome.
  assert (Hgone : inRoster cid (competitors st') = false)
    by (rewrite Hc; apply inRoster_filter_out).
  assert (Hnone : hasScore cid (scores st') = false)
    by (rewrite Hs; apply hasScore_filter_out).
  repeat apply conj; auto.
  - rewrite Htotal. now apply total_none.
  - intros c Hin Heq.
    apply (Permutation_in _ (Permutation_sym (Hboard st'))) in Hin.
    assert (inRoster cid (competitors st') = true); [|congruence].
    apply inRoster_In. rewrite <- Heq. now apply in_map.
  - intros Habsent. rewrite Hc. now apply filter_out_absent_roster.
  - intros _ Hno. rewrite Hs. now apply filter_out_absent_scores.
  - intros Habsent Href. rewrite Hs.
    apply filter_out_absent_scores. now apply refer_absent.
Qed.

Lemma app_remove_idempotent (cid : jsstring) (st : State) :
  AppTsx.handleRemoveCompetitor cid (AppTsx.handleRemoveCompetitor cid st)
  = AppTsx.handleRemoveCompetitor cid st.
Proof.
  unfold AppTsx.handleRemoveCompetitor, setCompetitors, setScores. simpl.
  now rewrite !filter_out_twice.
Qed.

Lemma part_remove_idempotent (cid : jsstring) (st : State) :
  Part001.handleRemoveCompetitor cid (Part001.handleRemoveCompetitor cid st)
  = Part001.handleRemoveCompetitor cid st.
Proof.
  unfold Part001.handleRemoveCompetitor.
  destruct (Z.of_nat (List.length (filter _ (competitors st))) =? 0) eqn:E;
    unfold setCompetitors, setScores, setCurrentScores, setCurrentCompetitorId;
    simpl; rewrite !filter_out_twice, E; simpl;
    rewrite ?filter_out_twice; reflexivity.
Qed.

End RemoveFacts.

(** C7.  [handleRemoveCompetitor cid] drops the
    competitors and the score records of [cid] and keeps the others, so
    the total of [cid] is 0 afterwards and [cid] is not on the
    leaderboard.  When no competitor has that identifier the roster is
    the one before, and so is the score list in every state whose score
    records refer to the roster, and whenever no record carries the
    identifier.  A second removal changes nothing.  Both variants. *)
Theorem remove_competitor_cascades (st : State) (cid : jsstring) :
  (removalOutcome AppTsx.calculateTotalScore AppTsx.sortedCompetitors
                  cid st (AppTsx.handleRemoveCompetitor cid st)
   /\ AppTsx.handleRemoveCompetitor cid (AppTsx.handleRemoveCompetitor cid st)
      = AppTsx.handleRemoveCompetitor cid st)
  /\
  (removalOutcome Part001.calculateTotalScore Part001.sortedCompetitors
                  cid st (Part001.handleRemoveCompetitor cid st)
   /\ Part001.handleRemoveCompetitor cid (Part001.handleRemoveCompetitor cid st)
      = Part001.handleRemoveCompetitor cid st).
Proof.
  split; split;
    auto using RemoveFacts.app_remove_idempotent, RemoveFacts.part_remove_idempotent.
  - apply RemoveFacts.filtered_removalOutcome;
      try apply RemoveFacts.app_remove_fields; [reflexivity|].
    intros s. apply JSFacts.sort_perm.
  - apply RemoveFacts.filtered_removalOutcome;
      try apply RemoveFacts.part_remove_fields; [apply HandlerFacts.totals_agree|].
    intros s. apply JSFacts.sort_perm.
Qed.

Lemma remove_competitor_cascades_witness :
  AppTsx.calculateTotalScore (AppTsx.handleRemoveCompetitor aliceId nothingSelected) aliceId = 0
  /\ competitors (Part001.handleRemoveCompetitor bobId nothingSelected) = [alice]
  /\ scores (Part001.handleRemoveCompetitor bobId nothingSelected) = [mkScore aliceId 5 3 2].
Proof.
  destruct (remove_competitor_cascades nothingSelected aliceId)
    as ((Happ & _) & _).
  destruct (remove_competitor_cascades nothingSelected bobId)
    as (_ & (Hpart & _)).
  destruct Happ as (_ & _ & _ & _ & Htotal & _).
  destruct Hpart as (_ & _ & _ & _ & _ & _ & Hroster & Hscores & _).
  repeat apply conj.
  - exact Htotal.
  - apply Hroster. reflexivity.
  - apply Hscores; reflexivity.
Defined.


(* ------------------------------------------------------------------ *)
(** ** Adding a competitor *)

Module AddFacts.

Import JSFacts.

Lemma app_add_blank (uuid : jsstring) (st : State) :
  JS.trim (newCompetitorName st) = [] -> AppTsx.handleAddCompetitor uuid st = st.
Proof. intros H. unfold AppTsx.handleAddCompetitor. now rewrite H. Qed.

Lemma part_add_blank (uuid : jsstring) (st : State) :
  JS.trim (newCompetitorName st) = [] ->
  Part001.handleAddCompetitor uuid st
  = setError (Some "Competitor name cannot be empty."%string) st.
Proof. intros H. unfold Part001.handleAddCompetitor. now rewrite H. Qed.

Lemma name_taken (text : jsstring) (roster : list Competitor) (c : Competitor) :
  In c roster -> name c = text ->
  JS.some (fun competitor => JS.eqb (name competitor) text) roster = true.
Proof.
  intros Hin Hname. unfold JS.some. apply existsb_exists.
  exists c. split; [exact Hin|]. now apply eqb_eq.
Qed.

Lemma app_add_duplicate (uuid : jsstring) (st : State) (c : Competitor) :
  In c (competitors st) -> JS.trim (newCompetitorName st) = name c -> name c <> [] ->
  AppTsx.handleAddCompetitor uuid st
  = setError (Some "Competitor name already exists."%string) st.
Proof.
  intros Hin Htrim Hne. unfold AppTsx.handleAddCompetitor.
  rewrite Htrim. apply truthy_true in Hne. rewrite Hne. simpl.
  now rewrite (name_taken (name c) _ c Hin eq_refl).
Qed.

Lemma part_add_duplicate (uuid : jsstring) (st : State) (c : Competitor) :
  In c (competitors st) -> JS.trim (newCompetitorName st) = name c -> name c <> [] ->
  Part001.handleAddCompetitor uuid st
  = setError (Some "Competitor name already exists."%string) st.
Proof.
  intros Hin Htrim Hne. unfold Part001.handleAddCompetitor.
  rewrite Htrim. apply truthy_true in Hne. rewrite Hne. simpl.
  now rewrite (name_taken (name c) _ c Hin eq_refl).
Qed.

(** What [handleAddCompetitor] can do to the roster: nothing, or append
    a competitor with a trimmed, non-empty name. *)
Lemma app_add_roster (uuid : jsstring) (st : State) :
  competitors (AppTsx.handleAddCompetitor uuid st) = competitors st
  \/ (JS.trim (newCompetitorName st) <> [] /\
      competitors (AppTsx.handleAddCompetitor uuid st)
      = competitors st ++ [mkCompetitor uuid (JS.trim (newCompetitorName st))]).
Proof.
  unfold AppTsx.handleAddCompetitor.
  destruct (JS.truthy (JS.trim (newCompetitorName st))) eqn:E; simpl; [|now left].
  destruct (JS.some _ _); simpl; [now left|].
  right. split; [now apply truthy_true|reflexivity].
Qed.

Lemma part_add_roster (uuid : jsstring) (st : State) :
  competitors (Part001.handleAddCompetitor uuid st) = competitors st
  \/ (JS.trim (newCompetitorName st) <> [] /\
      competitors (Part001.handleAddCompetitor uuid st)
      = competitors st ++ [mkCompetitor uuid (JS.trim (newCompetitorName st))]).
Proof.
  unfold Part001.handleAddCompetitor.
  destruct (JS.truthy (JS.trim (newCompetitorName st))) eqn:E; simpl; [|now left].
  destruct (JS.some _ _); simpl; [now left|].
  right. split; [now apply truthy_true|reflexivity].
Qed.

Lemma app_add_scores (uuid : jsstring) (st : State) :
  scores (AppTsx.handleAddCompetitor uuid st) = scores st.
Proof.
  unfold AppTsx.handleAddCompetitor.
  destruct (JS.truthy _); simpl; [|reflexivity]. now destruct (JS.some _ _).
Qed.

Lemma part_add_scores (uuid : jsstring) (st : State) :
  scores (Part001.handleAddCompetitor uuid st) = scores st.
Proof.
  unfold Part001.handleAddCompetitor.
  destruct (JS.truthy _); simpl; [|reflexivity]. now destruct (JS.some _ _).
Qed.

(** Names that differ in case are different names. *)
Example lower_case_name_is_accepted :
  competitors (AppTsx.handleAddCompetitor bobId
                 (setNewCompetitorName (JS.str "alice") duplicateName))
  = [alice; mkCompetitor bobId (JS.str "alice")].
Proof. reflexivity. Qed.

End AddFacts.

(** C5, what the code does.  With a name that [trim] empties, App.tsx
    returns the state it was given, error cell included, so no message
    is produced; part_001 leaves the roster alone and sets the message
    for an empty name. *)
Theorem blank_name_is_silent_in_AppTsx (st : State) (uuid : jsstring) :
  JS.trim (newCompetitorName st) = [] ->
  AppTsx.handleAddCompetitor uuid st = st
  /\ competitors (Part001.handleAddCompetitor uuid st) = competitors st
  /\ error (Part001.handleAddCompetitor uuid st)
     = Some "Competitor name cannot be empty."%string.
Proof.
  intros H. rewrite (AddFacts.app_add_blank uuid st H), (AddFacts.part_add_blank uuid st H).
  repeat split.
Qed.

Lemma blank_name_is_silent_in_AppTsx_witness :
  error (AppTsx.handleAddCompetitor aliceId blankName) = None
  /\ competitors (AppTsx.handleAddCompetitor aliceId blankName) = []
  /\ error (Part001.handleAddCompetitor aliceId blankName)
     = Some "Competitor name cannot be empty."%string.
Proof.
  destruct (blank_name_is_silent_in_AppTsx blankName aliceId eq_refl) as (Happ & _ & Hpart).
  split; [rewrite Happ; reflexivity|].
  split; [rewrite Happ; reflexivity|exact Hpart].
Defined.

(* ------------------------------------------------------------------ *)
(** ** Invariants of the runs *)

Module RunFacts.

Import JSFacts HandlerFacts SubmitFacts AddFacts.

(** A property every action preserves holds at the end of every run. *)
Lemma run_invariant (P : State -> Prop) enabled step :
  (forall ev st, P st -> P (step ev st)) ->
  forall events st st',
    P st -> runEvents enabled step events st = Some st' -> P st'.
Proof.
  intros Hstep. induction events as [|ev events IH]; intros st st' HP Hrun; simpl in Hrun.
  - now injection Hrun as <-.
  - destruct (enabled ev st); [|discriminate].
    apply (IH (step ev st)); auto.
Qed.

(** *** At most one record per competitor *)

Lemma app_policy : submissionPolicy AppTsx.handleSubmitScore overwritten.
Proof.
  split; intros st Hsel Hhas.
  - now rewrite (app_submit_new st Hsel Hhas).
  - destruct (hasScore_split _ _ Hhas) as (l1 & r & l2 & Hs & Hr & Hl1).
    exists l1, r, l2. rewrite (app_submit_existing st Hsel l1 r l2 Hs Hr Hl1).
    repeat split; auto.
Qed.

Lemma part_policy : submissionPolicy Part001.handleSubmitScore accumulated.
Proof.
  split; intros st Hsel Hhas.
  - now rewrite (part_submit_new st Hsel Hhas).
  - destruct (hasScore_split _ _ Hhas) as (l1 & r & l2 & Hs & Hr & Hl1).
    exists l1, r, l2. rewrite (part_submit_existing st Hsel l1 r l2 Hs Hr Hl1).
    repeat split; auto.
Qed.

(** A submission that follows a policy keeps the records unique. *)
Lemma policy_oneRecord submit combine :
  submissionPolicy submit combine ->
  (forall st, currentCompetitorId st = [] -> scores (submit st) = scores st) ->
  forall st, oneRecordPerCompetitor (scores st) ->
             oneRecordPerCompetitor (scores (submit st)).
Proof.
  intros [Hnew Hold] Hrej st Hone.
  destruct (currentCompetitorId st) as [|u sel] eqn:Ecur.
  - now rewrite (Hrej st Ecur).
  - assert (Hsel : currentCompetitorId st <> []) by (rewrite Ecur; discriminate).
    destruct (hasScore (currentCompetitorId st) (scores st)) eqn:Ehas.
    + destruct (Hold st Hsel Ehas) as (l1 & r & l2 & Hs & Hr & _ & Hc & ->).
      rewrite Hs in Hone. apply (oneRecord_replace l1 l2 r); [congruence|exact Hone].
    + rewrite (Hnew st Hsel Ehas). now apply oneRecord_append.
Qed.

Lemma app_step_oneRecord ev st :
  oneRecordPerCompetitor (scores st) -> oneRecordPerCompetitor (scores (AppTsx.step ev st)).
Proof.
  intros Hone. destruct ev; cbn [AppTsx.step Part001.step]; try exact Hone.
  - now rewrite app_add_scores.
  - now apply oneRecord_filter.
  - apply (policy_oneRecord _ _ app_policy); [|exact Hone].
    intros s Hs. now rewrite (app_submit_rejected s Hs).
Qed.

Lemma part_step_oneRecord ev st :
  oneRecordPerCompetitor (scores st) -> oneRecordPerCompetitor (scores (Part001.step ev st)).
Proof.
  intros Hone. destruct ev; cbn [AppTsx.step Part001.step]; try exact Hone.
  - now destruct open.
  - now rewrite part_add_scores.
  - rewrite (proj2 (RemoveFacts.part_remove_fields _ _)). now apply oneRecord_filter.
  - apply (policy_oneRecord _ _ part_policy); [|exact Hone].
    intros s Hs. now rewrite (part_submit_rejected s Hs).
Qed.

(** *** Stored names are trimmed and not empty *)

Lemma namesTrimmed_append roster uuid text :
  namesTrimmed roster -> JS.trim text <> [] ->
  namesTrimmed (roster ++ [mkCompetitor uuid (JS.trim text)]).
Proof.
  intros Hn Hne c Hin. apply in_app_or in Hin as [Hin|[<-|[]]]; [auto|].
  simpl. split; [apply TextFacts.trim_idem|exact Hne].
Qed.

Lemma namesTrimmed_filter f roster :
  namesTrimmed roster -> namesTrimmed (filter f roster).
Proof. intros Hn c Hin. apply filter_In in Hin as [Hin _]. auto. Qed.

Lemma app_submit_roster st :
  competitors (AppTsx.handleSubmitScore st) = competitors st.
Proof. unfold AppTsx.handleSubmitScore. now destruct (JS.truthy _). Qed.

Lemma part_submit_roster st :
  competitors (Part001.handleSubmitScore st) = competitors st.
Proof. unfold Part001.handleSubmitScore. now destruct (JS.truthy _). Qed.

Lemma app_step_namesTrimmed ev st :
  namesTrimmed (competitors st) -> namesTrimmed (competitors (AppTsx.step ev st)).
Proof.
  intros Hn. destruct ev; cbn [AppTsx.step Part001.step]; try exact Hn.
  - destruct (app_add_roster uuid st) as [->|[Hne ->]];
      [exact Hn|now apply namesTrimmed_append].
  - now apply namesTrimmed_filter.
  - now rewrite app_submit_roster.
Qed.

Lemma part_step_namesTrimmed ev st :
  namesTrimmed (competitors st) -> namesTrimmed (competitors (Part001.step ev st)).
Proof.
  intros Hn. destruct ev; cbn [AppTsx.step Part001.step]; try exact Hn.
  - now destruct open.
  - destruct (part_add_roster uuid st) as [->|[Hne ->]];
      [exact Hn|now apply namesTrimmed_append].
  - rewrite (proj1 (RemoveFacts.part_remove_fields _ _)). now apply namesTrimmed_filter.
  - now rewrite part_submit_roster.
Qed.

Lemma app_reachable_namesTrimmed st :
  AppTsx.reachable st -> namesTrimmed (competitors st).
Proof.
  intros [events Hrun].
  apply (run_invariant (fun s => namesTrimmed (competitors s)) AppTsx.enabled _
           app_step_namesTrimmed events initialState st); [intros c []|exact Hrun].
Qed.

Lemma part_reachable_namesTrimmed st :
  Part001.reachable st -> namesTrimmed (competitors st).
Proof.
  intros [events Hrun].
  apply (run_invariant (fun s => namesTrimmed (competitors s)) Part001.enabled _
           part_step_namesTrimmed events initialState st); [intros c []|exact Hrun].
Qed.

End RunFacts.

(** C8.  Every action keeps the score list at one record per
    competitor identifier at most, so every reachable state has it.  A
    submission for a selected competitor without a record appends
    exactly the record of the form; one for a competitor with a record
    puts the combined record in the place of the old one and adds
    none.  Both variants, each with its own combination. *)
Theorem one_record_per_competitor_preserved :
  ((forall ev st, oneRecordPerCompetitor (scores st) ->
                  oneRecordPerCompetitor (scores (AppTsx.step ev st)))
   /\ (forall st, AppTsx.reachable st -> oneRecordPerCompetitor (scores st))
   /\ submissionPolicy AppTsx.handleSubmitScore overwritten)
  /\
  ((forall ev st, oneRecordPerCompetitor (scores st) ->
                  oneRecordPerCompetitor (scores (Part001.step ev st)))
   /\ (forall st, Part001.reachable st -> oneRecordPerCompetitor (scores st))
   /\ submissionPolicy Part001.handleSubmitScore accumulated).
Proof.
  split; (split; [|split]).
  - apply RunFacts.app_step_oneRecord.
  - intros st [events Hrun].
    apply (RunFacts.run_invariant (fun s => oneRecordPerCompetitor (scores s))
             AppTsx.enabled _ RunFacts.app_step_oneRecord events initialState st);
      [constructor|exact Hrun].
  - apply RunFacts.app_policy.
  - apply RunFacts.part_step_oneRecord.
  - intros st [events Hrun].
    apply (RunFacts.run_invariant (fun s => oneRecordPerCompetitor (scores s))
             Part001.enabled _ RunFacts.part_step_oneRecord events initialState st);
      [constructor|exact Hrun].
  - apply RunFacts.part_policy.
Qed.

Lemma one_record_per_competitor_preserved_witness :
  oneRecordPerCompetitor (scores (AppTsx.step ClickSubmitScore secondSubmission))
  /\ oneRecordPerCompetitor (scores nothingSelected)
  /\ scores (Part001.handleSubmitScore firstSubmission) = [mkScore aliceId 5 3 2]
  /\ (exists l1 r l2,
        scores secondSubmission = l1 ++ r :: l2 /\
        scores (Part001.handleSubmitScore secondSubmission)
        = l1 ++ accumulated r (newScoreOf secondSubmission) :: l2).
Proof.
  destruct one_record_per_competitor_preserved
    as ((Hstep & _ & _) & (_ & Hreach & Hnew & Hold)).
  split; [|split; [|split]].
  - apply Hstep. repeat constructor. intros [].
  - apply Hreach. exists scoreAliceOnce. reflexivity.
  - apply (Hnew firstSubmission); [discriminate|reflexivity].
  - destruct (Hold secondSubmission) as (l1 & r & l2 & Hs & _ & _ & _ & Hsub);
      [discriminate|reflexivity|].
    exists l1, r, l2. split; [exact Hs|exact Hsub].
Defined.

(** C9.  In a reachable state, typing the exact name of a competitor of
    the roster and clicking Add is answered with the error for an
    existing name, and the roster stays as it is.  In any state this
    happens when the typed name, trimmed, is the non-empty name of a
    competitor of the roster.  Both variants. *)
Theorem duplicate_name_is_rejected :
  (forall st uuid c,
     AppTsx.reachable st -> In c (competitors st) -> newCompetitorName st = name c ->
     error (AppTsx.handleAddCompetitor uuid st)
       = Some "Competitor name already exists."%string /\
     competitors (AppTsx.handleAddCompetitor uuid st) = competitors st)
  /\
  (forall st uuid c,
     Part001.reachable st -> In c (competitors st) -> newCompetitorName st = name c ->
     error (Part001.handleAddCompetitor uuid st)
       = Some "Competitor name already exists."%string /\
     competitors (Part001.handleAddCompetitor uuid st) = competitors st)
  /\
  (forall st uuid c,
     In c (competitors st) -> JS.trim (newCompetitorName st) = name c -> name c <> [] ->
     AppTsx.handleAddCompetitor uuid st
       = setError (Some "Competitor name already exists."%string) st /\
     Part001.handleAddCompetitor uuid st
       = setError (Some "Competitor name already exists."%string) st).
Proof.
  repeat apply conj.
  - intros st uuid c Hreach Hin Hname.
    destruct (RunFacts.app_reachable_namesTrimmed st Hreach c Hin) as [Htrim Hne].
    rewrite <- Hname in Htrim at 1.
    rewrite (AddFacts.app_add_duplicate uuid st c Hin Htrim Hne). split; reflexivity.
  - intros st uuid c Hreach Hin Hname.
    destruct (RunFacts.part_reachable_namesTrimmed st Hreach c Hin) as [Htrim Hne].
    rewrite <- Hname in Htrim at 1.
    rewrite (AddFacts.part_add_duplicate uuid st c Hin Htrim Hne). split; reflexivity.
  - intros st uuid c Hin Htrim Hne. split.
    + now apply (AddFacts.app_add_duplicate uuid st c).
    + now apply (AddFacts.part_add_duplicate uuid st c).
Qed.

Lemma duplicate_name_is_rejected_witness :
  (error (AppTsx.handleAddCompetitor bobId duplicateName)
     = Some "Competitor name already exists."%string /\
   competitors (AppTsx.handleAddCompetitor bobId duplicateName) = [alice])
  /\ (error (Part001.handleAddCompetitor bobId duplicateName)
        = Some "Competitor name already exists."%string /\
      competitors (Part001.handleAddCompetitor bobId duplicateName) = [alice])
  /\ Part001.handleAddCompetitor bobId (setNewCompetitorName (JS.str " Alice ") duplicateName)
     = setError (Some "Competitor name already exists."%string)
                (setNewCompetitorName (JS.str " Alice ") duplicateName).
Proof.
  destruct duplicate_name_is_rejected as (Happ & Hpart & Hany).
  repeat apply conj.
  - apply (Happ duplicateName bobId alice);
      [exists addAliceTwice; reflexivity|left; reflexivity|reflexivity].
  - apply (Happ duplicateName bobId alice);
      [exists addAliceTwice; reflexivity|left; reflexivity|reflexivity].
  - apply (Hpart duplicateName bobId alice);
      [exists addAliceTwice; reflexivity|left; reflexivity|reflexivity].
  - apply (Hpart duplicateName bobId alice);
      [exists addAliceTwice; reflexivity|left; reflexivity|reflexivity].
  - apply (Hany (setNewCompetitorName (JS.str " Alice ") duplicateName) bobId alice);
      [left; reflexivity|reflexivity|discriminate].
Defined.

(* ------------------------------------------------------------------ *)
(** ** Where the reference from score records to the roster holds *)

Module ReferFacts.

Import JSFacts HandlerFacts SubmitFacts AddFacts RunFacts.

Lemma refer_forall (st : State) :
  scoresReferToRoster st = true <->
  forall r, In r (scores st) -> inRoster (competitorId r) (competitors st) = true.
Proof. unfold scoresReferToRoster. apply forallb_forall. Qed.

Lemma inRoster_app (cid : jsstring) (roster more : list Competitor) :
  inRoster cid roster = true -> inRoster cid (roster ++ more) = true.
Proof. unfold inRoster. rewrite existsb_app. now intros ->. Qed.

Lemma inRoster_filter_other (cid other : jsstring) (roster : list Competitor) :
  inRoster other roster = true -> other <> cid ->
  inRoster other (filter (fun c => negb (JS.eqb (id c) cid)) roster) = true.
Proof.
  unfold inRoster. rewrite !existsb_exists. intros (c & Hin & Hc) Hne.
  exists c. split; [|exact Hc]. apply filter_In. split; [exact Hin|].
  apply eqb_eq in Hc. apply negb_true_iff, eqb_neq. congruence.
Qed.

(** Removal keeps the reference: the cascade deletes the records of the
    removed competitor. *)
Lemma remove_refer cid st st' :
  competitors st' = filter (fun c => negb (JS.eqb (id c) cid)) (competitors st) ->
  scores st' = filter (fun r => negb (JS.eqb (competitorId r) cid)) (scores st) ->
  scoresReferToRoster st = true -> scoresReferToRoster st' = true.
Proof.
  intros Hc Hs Href. rewrite refer_forall in *. rewrite Hc, Hs.
  intros r Hr. apply filter_In in Hr as [Hr Hne].
  apply inRoster_filter_other; [auto|]. now apply eqb_neq, negb_true_iff.
Qed.

(** A submission keeps the reference when the selection is one the
    select control lists. *)
Lemma submit_refer submit combine :
  submissionPolicy submit combine ->
  (forall st, currentCompetitorId st = [] -> scores (submit st) = scores st) ->
  (forall st, competitors (submit st) = competitors st) ->
  forall st, selectionOffered st = true ->
             scoresReferToRoster st = true -> scoresReferToRoster (submit st) = true.
Proof.
  intros [Hnew Hold] Hrej Hroster st Hoffered Href.
  rewrite refer_forall in *. rewrite Hroster.
  destruct (currentCompetitorId st) as [|u sel] eqn:Ecur.
  - now rewrite (Hrej st Ecur).
  - assert (Hsel : currentCompetitorId st <> []) by (rewrite Ecur; discriminate).
    unfold selectionOffered in Hoffered.
    rewrite (proj2 (truthy_true _) Hsel) in Hoffered. simpl in Hoffered.
    destruct (hasScore (currentCompetitorId st) (scores st)) eqn:Ehas.
    + destruct (Hold st Hsel Ehas) as (l1 & r & l2 & Hs & _ & _ & Hc & ->).
      rewrite Hs in Href. intros x Hx.
      apply in_app_or in Hx as [Hx|[<-|Hx]].
      * apply Href, in_or_app. now left.
      * now rewrite Hc.
      * apply Href, in_or_app. right. now right.
    + rewrite (Hnew st Hsel Ehas). intros x Hx.
      apply in_app_or in Hx as [Hx|[<-|[]]]; [auto|exact Hoffered].
Qed.

Lemma app_step_refer ev st :
  (ev = ClickSubmitScore -> selectionOffered st = true) ->
  scoresReferToRoster st = true -> scoresReferToRoster (AppTsx.step ev st) = true.
Proof.
  intros Hoffered Href. destruct ev; cbn [AppTsx.step]; try exact Href.
  - apply refer_forall. rewrite app_add_scores. intros r Hr.
    rewrite refer_forall in Href.
    destruct (app_add_roster uuid st) as [->|[_ ->]]; [|apply inRoster_app]; auto.
  - now apply (remove_refer removedId st).
  - apply (submit_refer _ _ app_policy); auto using app_submit_roster.
    intros s Hs. now rewrite (app_submit_rejected s Hs).
Qed.

Lemma part_step_refer ev st :
  (ev = ClickSubmitScore -> selectionOffered st = true) ->
  scoresReferToRoster st = true -> scoresReferToRoster (Part001.step ev st) = true.
Proof.
  intros Hoffered Href. destruct ev; cbn [Part001.step]; try exact Href.
  - destruct open; exact Href.
  - apply refer_forall. rewrite part_add_scores. intros r Hr.
    rewrite refer_forall in Href.
    destruct (part_add_roster uuid st) as [->|[_ ->]]; [|apply inRoster_app]; auto.
  - apply (remove_refer removedId st); auto; apply RemoveFacts.part_remove_fields.
  - apply (submit_refer _ _ part_policy); auto using part_submit_roster.
    intros s Hs. now rewrite (part_submit_rejected s Hs).
Qed.

End ReferFacts.

(* ------------------------------------------------------------------ *)
(** ** More about adding a competitor *)

Module AddMore.

Import JSFacts HandlerFacts AddFacts.

Lemma name_free (text : jsstring) (roster : list Competitor) :
  JS.some (fun competitor => JS.eqb (name competitor) text) roster = false <->
  forall c, In c roster -> name c <> text.
Proof.
  unfold JS.some. induction roster as [|c l IH]; simpl.
  - split; [intros _ c []|reflexivity].
  - rewrite orb_false_iff, IH, eqb_neq. split.
    + intros [Hc Hl] x [<-|Hx]; auto.
    + intros H. split; [apply H; now left|]. intros x Hx. apply H. now right.
Qed.

Lemma nameIsNew_checks (st : State) :
  nameIsNew st <->
  JS.truthy (JS.trim (newCompetitorName st)) = true /\
  JS.some (fun competitor => JS.eqb (name competitor) (JS.trim (newCompetitorName st)))
          (competitors st) = false.
Proof. unfold nameIsNew. now rewrite truthy_true, name_free. Qed.

Lemma setError_same (st : State) : setError (error st) st = st.
Proof. now destruct st. Qed.

Lemma app_add_new (uuid : jsstring) (st : State) :
  nameIsNew st ->
  AppTsx.handleAddCompetitor uuid st
  = mkState (competitors st ++ [mkCompetitor uuid (JS.trim (newCompetitorName st))])
            (scores st) false [] None (currentCompetitorId st) (currentScores st).
Proof.
  intros H. apply nameIsNew_checks in H as [Ht Hs].
  unfold AppTsx.handleAddCompetitor. now rewrite Ht, Hs.
Qed.

Lemma part_add_new (uuid : jsstring) (st : State) :
  nameIsNew st ->
  Part001.handleAddCompetitor uuid st
  = mkState (competitors st ++ [mkCompetitor uuid (JS.trim (newCompetitorName st))])
            (scores st) false [] None (currentCompetitorId st) (currentScores st).
Proof.
  intros H. apply nameIsNew_checks in H as [Ht Hs].
  unfold Part001.handleAddCompetitor. now rewrite Ht, Hs.
Qed.

Lemma app_add_refused (uuid : jsstring) (st : State) :
  ~ nameIsNew st -> exists e, AppTsx.handleAddCompetitor uuid st = setError e st.
Proof.
  intros H. rewrite nameIsNew_checks in H. unfold AppTsx.handleAddCompetitor.
  destruct (JS.truthy _); simpl.
  - destruct (JS.some _ _); [eauto|]. exfalso. auto.
  - exists (error st). symmetry. apply setError_same.
Qed.

Lemma part_add_refused (uuid : jsstring) (st : State) :
  ~ nameIsNew st -> exists e, Part001.handleAddCompetitor uuid st = setError (Some e) st.
Proof.
  intros H. rewrite nameIsNew_checks in H. unfold Part001.handleAddCompetitor.
  destruct (JS.truthy _); simpl; [|eauto].
  destruct (JS.some _ _); [eauto|]. exfalso. auto.
Qed.

Lemma nameIsNew_dec (st : State) : nameIsNew st \/ ~ nameIsNew st.
Proof.
  rewrite nameIsNew_checks.
  destruct (JS.truthy _), (JS.some _ _); intuition discriminate.
Qed.

(** *** Unique names *)

Lemma NoDup_map_filter {A B : Type} (g : A -> B) (f : A -> bool) (l : list A) :
  NoDup (List.map g l) -> NoDup (List.map g (filter f l)).
Proof.
  induction l as [|x l IH]; simpl; [auto|].
  intros Hnd. inversion Hnd as [|? ? Hnotin Hnd']; subst.
  destruct (f x); simpl; [|auto].
  constructor; [|auto]. intros Hin. apply Hnotin.
  apply in_map_iff in Hin as (y & <- & Hy). apply filter_In in Hy as [Hy _].
  now apply in_map.
Qed.

Lemma NoDup_map_snoc {A B : Type} (g : A -> B) (l : list A) (x : A) :
  NoDup (List.map g l) -> (forall y, In y l -> g y <> g x) ->
  NoDup (List.map g (l ++ [x])).
Proof.
  intros Hnd Hnew. rewrite map_app. simpl.
  apply NoDup_app; [exact Hnd|repeat constructor; auto|].
  intros b Hb [<-|[]]. apply in_map_iff in Hb as (y & Hy & Hin).
  now apply (Hnew y Hin).
Qed.

Lemma namesUnique_added roster uuid st :
  competitors st = roster -> nameIsNew st -> namesUnique roster ->
  namesUnique (roster ++ [mkCompetitor uuid (JS.trim (newCompetitorName st))]).
Proof.
  intros <- [_ Hfree] Hnd. apply NoDup_map_snoc; [exact Hnd|]. exact Hfree.
Qed.

Lemma app_step_namesUnique ev st :
  namesUnique (competitors st) -> namesUnique (competitors (AppTsx.step ev st)).
Proof.
  intros Hn. destruct ev; cbn [AppTsx.step]; try exact Hn.
  - destruct (nameIsNew_dec st) as [Hnew|Hold].
    + rewrite (app_add_new uuid st Hnew). simpl. now apply (namesUnique_added _ _ st).
    + destruct (app_add_refused uuid st Hold) as [e ->]. exact Hn.
  - now apply NoDup_map_filter.
  - now rewrite RunFacts.app_submit_roster.
Qed.

Lemma part_step_namesUnique ev st :
  namesUnique (competitors st) -> namesUnique (competitors (Part001.step ev st)).
Proof.
  intros Hn. destruct ev; cbn [Part001.step]; try exact Hn.
  - destruct open; exact Hn.
  - destruct (nameIsNew_dec st) as [Hnew|Hold].
    + rewrite (part_add_new uuid st Hnew). simpl. now apply (namesUnique_added _ _ st).
    + destruct (part_add_refused uuid st Hold) as [e ->]. exact Hn.
  - rewrite (proj1 (RemoveFacts.part_remove_fields _ _)). now apply NoDup_map_filter.
  - now rewrite RunFacts.part_submit_roster.
Qed.

End AddMore.

(** X1.  No action of either variant makes two competitors of the roster
    share a name, so the names of the roster are pairwise distinct in
    every reachable state. *)
Theorem roster_names_stay_unique :
  ((forall ev st, namesUnique (competitors st) ->
                  namesUnique (competitors (AppTsx.step ev st)))
   /\ (forall st, AppTsx.reachable st -> namesUnique (competitors st)))
  /\
  ((forall ev st, namesUnique (competitors st) ->
                  namesUnique (competitors (Part001.step ev st)))
   /\ (forall st, Part001.reachable st -> namesUnique (competitors st))).
Proof.
  split; split.
  - apply AddMore.app_step_namesUnique.
  - intros st [events Hrun].
    apply (RunFacts.run_invariant (fun s => namesUnique (competitors s))
             AppTsx.enabled _ AddMore.app_step_namesUnique events initialState st);
      [constructor|exact Hrun].
  - apply AddMore.part_step_namesUnique.
  - intros st [events Hrun].
    apply (RunFacts.run_invariant (fun s => namesUnique (competitors s))
             Part001.enabled _ AddMore.part_step_namesUnique events initialState st);
      [constructor|exact Hrun].
Qed.

Lemma roster_names_stay_unique_witness :
  namesUnique (competitors (AppTsx.step (ClickAddCompetitor bobId) duplicateName))
  /\ namesUnique (competitors nothingSelected).
Proof.
  destruct roster_names_stay_unique as ((Hstep & _) & (_ & Hreach)).
  split.
  - apply Hstep. repeat constructor. intros [].
  - apply Hreach. exists scoreAliceOnce. reflexivity.
Defined.

(** X2.  In every reachable state of either variant the name of every
    competitor of the roster is not empty and is its own trimmed form:
    it neither starts nor ends with white space. *)
Theorem roster_names_are_trimmed_and_not_empty :
  (forall st c, AppTsx.reachable st -> In c (competitors st) ->
                name c <> [] /\ JS.trim (name c) = name c)
  /\ (forall st c, Part001.reachable st -> In c (competitors st) ->
                   name c <> [] /\ JS.trim (name c) = name c).
Proof.
  split; intros st c Hreach Hin.
  - destruct (RunFacts.app_reachable_namesTrimmed st Hreach c Hin). auto.
  - destruct (RunFacts.part_reachable_namesTrimmed st Hreach c Hin). auto.
Qed.

Lemma roster_names_are_trimmed_and_not_empty_witness :
  name alice <> [] /\ JS.trim (name alice) = name alice.
Proof.
  destruct roster_names_are_trimmed_and_not_empty as [_ Hpart].
  apply (Hpart nothingSelected alice).
  - exists scoreAliceOnce. reflexivity.
  - left. reflexivity.
Defined.

(** X3.  [handleAddCompetitor] of both variants: when the typed name,
    trimmed, is not empty and not the name of a competitor, the
    competitor with the given identifier and the trimmed name is
    appended to the roster, the dialog is closed, the typed name and
    the error are cleared, and nothing else changes; otherwise only the
    error cell can change, so the dialog stays as it is with the typed
    name in it. *)
Theorem add_competitor_appends_or_changes_only_error (st : State) (uuid : jsstring) :
  (nameIsNew st ->
   AppTsx.handleAddCompetitor uuid st
   = mkState (competitors st ++ [mkCompetitor uuid (JS.trim (newCompetitorName st))])
             (scores st) false [] None (currentCompetitorId st) (currentScores st)
   /\ Part001.handleAddCompetitor uuid st = AppTsx.handleAddCompetitor uuid st)
  /\
  (~ nameIsNew st ->
   (exists e, AppTsx.handleAddCompetitor uuid st = setError e st)
   /\ (exists e, Part001.handleAddCompetitor uuid st = setError (Some e) st)).
Proof.
  split.
  - intros H. rewrite (AddMore.app_add_new uuid st H), (AddMore.part_add_new uuid st H).
    split; reflexivity.
  - intros H. split.
    + now apply AddMore.app_add_refused.
    + now apply AddMore.part_add_refused.
Qed.

Lemma add_competitor_appends_or_changes_only_error_witness :
  competitors (Part001.handleAddCompetitor bobId
                 (setNewCompetitorName (JS.str " Bob ") duplicateName))
  = [alice; bob]
  /\ (exists e, Part001.handleAddCompetitor bobId duplicateName
                = setError (Some e) duplicateName).
Proof.
  destruct (add_competitor_appends_or_changes_only_error
              (setNewCompetitorName (JS.str " Bob ") duplicateName) bobId) as [Hnew _].
  destruct (add_competitor_appends_or_changes_only_error duplicateName bobId)
    as [_ Hold].
  split.
  - destruct Hnew as [Happ Hpart].
    + split; [discriminate|]. intros c [<-|[]]. discriminate.
    + rewrite Hpart, Happ. reflexivity.
  - apply Hold. intros [_ Hfree]. apply (Hfree alice); [left|]; reflexivity.
Defined.

(* ------------------------------------------------------------------ *)
(** ** More about submitting a score *)

Module SubmitMore.

Import JSFacts HandlerFacts SubmitFacts.

Lemma fold_points (l : list Score) (acc : Z) :
  fold_left (fun total score =>
               total + (creativity score + technique score + presentation score)) l acc
  = acc + sumPoints l.
Proof.
  revert acc. induction l as [|r l IH]; intros acc; simpl; [lia|].
  rewrite IH. unfold points. lia.
Qed.

(** The total is the sum of the points of the competitor's records. *)
Lemma total_sum (st : State) (cid : jsstring) :
  AppTsx.calculateTotalScore st cid
  = sumPoints (filter (fun score => JS.eqb (competitorId score) cid) (scores st)).
Proof.
  unfold AppTsx.calculateTotalScore, AppTsx.getCompetitorScores.
  now rewrite fold_points.
Qed.

Lemma sumPoints_app (l1 l2 : list Score) :
  sumPoints (l1 ++ l2) = sumPoints l1 + sumPoints l2.
Proof. induction l1 as [|r l1 IH]; simpl; [reflexivity|]. rewrite IH. lia. Qed.

Lemma sum_middle (g : Score -> bool) (l1 l2 : list Score) (x : Score) :
  sumPoints (filter g (l1 ++ x :: l2))
  = sumPoints (filter g l1) + (if g x then points x else 0) + sumPoints (filter g l2).
Proof.
  rewrite filter_app, sumPoints_app. simpl. destruct (g x); simpl; lia.
Qed.

Lemma sum_snoc (g : Score -> bool) (l : list Score) (x : Score) :
  sumPoints (filter g (l ++ [x]))
  = sumPoints (filter g l) + (if g x then points x else 0).
Proof. rewrite sum_middle. simpl. lia. Qed.

Lemma app_submit_selection (st : State) :
  currentCompetitorId (AppTsx.handleSubmitScore st) = [].
Proof.
  unfold AppTsx.handleSubmitScore.
  destruct (JS.truthy (currentCompetitorId st)) eqn:E; simpl; [reflexivity|].
  now apply truthy_false.
Qed.

Lemma part_submit_selection (st : State) :
  currentCompetitorId (Part001.handleSubmitScore st) = [].
Proof.
  unfold Part001.handleSubmitScore.
  destruct (JS.truthy (currentCompetitorId st)) eqn:E; simpl; [reflexivity|].
  now apply truthy_false.
Qed.

(** What any submission following a policy does to the totals. *)
Section Policy.
Variable submit : State -> State.
Variable combine : Score -> Score -> Score.
Hypothesis policy : submissionPolicy submit combine.
Hypothesis rejected :
  forall st, currentCompetitorId st = [] -> scores (submit st) = scores st.

Lemma policy_other_total (st : State) (cid : jsstring) :
  cid <> currentCompetitorId st ->
  sumPoints (filter (fun score => JS.eqb (competitorId score) cid) (scores (submit st)))
  = sumPoints (filter (fun score => JS.eqb (competitorId score) cid) (scores st)).
Proof.
  intros Hother. destruct policy as [Hnew Hold].
  destruct (currentCompetitorId st) as [|u sel] eqn:Ecur.
  - now rewrite (rejected st Ecur).
  - assert (Hsel : currentCompetitorId st <> []) by (rewrite Ecur; discriminate).
    rewrite <- Ecur in Hother.
    destruct (hasScore (currentCompetitorId st) (scores st)) eqn:Ehas.
    + destruct (Hold st Hsel Ehas) as (l1 & r & l2 & Hs & Hr & _ & Hc & ->).
      rewrite Hs, !sum_middle, Hc, Hr.
      assert (JS.eqb (currentCompetitorId st) cid = false) as ->
        by (apply eqb_neq; congruence).
      reflexivity.
    + rewrite (Hnew st Hsel Ehas), sum_snoc. unfold newScoreOf at 2. simpl.
      assert (JS.eqb (currentCompetitorId st) cid = false) as ->
        by (apply eqb_neq; congruence).
      lia.
Qed.

(** The total of the selected competitor after a submission, in terms
    of the record the submission met. *)
Lemma policy_selected_total (st : State) :
  currentCompetitorId st <> [] ->
  (hasScore (currentCompetitorId st) (scores st) = false /\
   sumPoints (filter (fun score => JS.eqb (competitorId score) (currentCompetitorId st))
                     (scores (submit st)))
   = sumPoints (filter (fun score => JS.eqb (competitorId score) (currentCompetitorId st))
                       (scores st))
     + formPoints (currentScores st))
  \/
  (exists l1 r l2,
     scores st = l1 ++ r :: l2 /\ competitorId r = currentCompetitorId st /\
     sumPoints (filter (fun score => JS.eqb (competitorId score) (currentCompetitorId st))
                       (scores (submit st))) + points r
     = sumPoints (filter (fun score => JS.eqb (competitorId score) (currentCompetitorId st))
                         (scores st))
       + points (combine r (newScoreOf st))).
Proof.
  intros Hsel. destruct policy as [Hnew Hold].
  destruct (hasScore (currentCompetitorId st) (scores st)) eqn:Ehas.
  - right. destruct (Hold st Hsel Ehas) as (l1 & r & l2 & Hs & Hr & _ & Hc & ->).
    exists l1, r, l2. repeat split; auto.
    rewrite Hs, !sum_middle, Hc, Hr, eqb_refl. lia.
  - left. split; [reflexivity|].
    rewrite (Hnew st Hsel Ehas), sum_snoc. unfold newScoreOf at 2. simpl.
    rewrite eqb_refl. unfold points, formPoints. simpl. lia.
Qed.

End Policy.

End SubmitMore.

(** X4.  A second click on Submit Score right after a first one is
    always refused: the selection is empty after any submission, so the
    second one only sets the error message and the score list is the one
    the first click left.  Both variants. *)
Theorem submit_twice_records_once (st : State) :
  (AppTsx.handleSubmitScore (AppTsx.handleSubmitScore st)
     = setError (Some "Please select a competitor."%string) (AppTsx.handleSubmitScore st)
   /\ scores (AppTsx.handleSubmitScore (AppTsx.handleSubmitScore st))
      = scores (AppTsx.handleSubmitScore st))
  /\
  (Part001.handleSubmitScore (Part001.handleSubmitScore st)
     = setError (Some "Please select a competitor."%string) (Part001.handleSubmitScore st)
   /\ scores (Part001.handleSubmitScore (Part001.handleSubmitScore st))
      = scores (Part001.handleSubmitScore st)).
Proof.
  rewrite (SubmitFacts.app_submit_rejected _ (SubmitMore.app_submit_selection st)),
          (SubmitFacts.part_submit_rejected _ (SubmitMore.part_submit_selection st)).
  repeat split.
Qed.



(** X6.  In App.tsx, where the score list has at most one record per
    competitor, a submission for a selected competitor makes the points
    of the form the competitor's total, the sum of the form being
    exact. *)
Theorem appTsx_submission_replaces_the_total (st : State) :
  currentCompetitorId st <> [] ->
  oneRecordPerCompetitor (scores st) ->
  exactForm (currentScores st) ->
  AppTsx.calculateTotalScore (AppTsx.handleSubmitScore st) (currentCompetitorId st)
  = formPoints (currentScores st).
Proof.
  intros Hsel Hone _. rewrite SubmitMore.total_sum.
  destruct (SubmitMore.policy_selected_total _ _ RunFacts.app_policy st Hsel)
    as [[Hnone H]|(l1 & r & l2 & Hs & Hr & H)].
  - rewrite H, (HandlerFacts.filter_none _ _ Hnone). simpl. lia.
  - assert (Hin : In r (scores st)) by (rewrite Hs; apply in_elt).
    pose proof (HandlerFacts.filter_single r _ Hone Hin) as Hsingle.
    rewrite Hr in Hsingle. rewrite Hsingle in H. simpl in H.
    unfold overwritten, newScoreOf, points, formPoints in *. simpl in H. lia.
Qed.

Lemma appTsx_submission_replaces_the_total_witness :
  AppTsx.calculateTotalScore (AppTsx.handleSubmitScore secondSubmission) aliceId = 6.
Proof.
  apply (appTsx_submission_replaces_the_total secondSubmission).
  - discriminate.
  - repeat constructor. intros [].
  - repeat split.
Defined.

(** X7.  A submission, accepted or refused, leaves the total of every
    identifier other than the selected one as it was.  Both variants. *)
Theorem submission_keeps_the_other_totals (st : State) (cid : jsstring) :
  cid <> currentCompetitorId st ->
  AppTsx.calculateTotalScore (AppTsx.handleSubmitScore st) cid
    = AppTsx.calculateTotalScore st cid
  /\ Part001.calculateTotalScore (Part001.handleSubmitScore st) cid
    = Part001.calculateTotalScore st cid.
Proof.
  intros Hother. rewrite !HandlerFacts.totals_agree, !SubmitMore.total_sum. split.
  - apply (SubmitMore.policy_other_total _ _ RunFacts.app_policy); [|exact Hother].
    intros s Hs. now rewrite (SubmitFacts.app_submit_rejected s Hs).
  - apply (SubmitMore.policy_other_total _ _ RunFacts.part_policy); [|exact Hother].
    intros s Hs. now rewrite (SubmitFacts.part_submit_rejected s Hs).
Qed.

Lemma submission_keeps_the_other_totals_witness :
  AppTsx.calculateTotalScore (AppTsx.handleSubmitScore staleSelection) bobId
  = AppTsx.calculateTotalScore staleSelection bobId.
Proof.
  apply (submission_keeps_the_other_totals staleSelection bobId). discriminate.
Defined.

Module ResubmitFacts.

Import JSFacts HandlerFacts SubmitFacts.






End ResubmitFacts.



(* ------------------------------------------------------------------ *)
(** ** The leaderboard under changes of the roster *)

Module BoardMore.

Import JSFacts HandlerFacts.

Section SortMore.
Context {A : Type}.
Implicit Types (f g : A -> bool) (l : list A).

Lemma insert_ext_in (cmp cmp' : A -> A -> Z) x l :
  (forall y, In y l -> cmp x y = cmp' x y) -> JS.insert cmp x l = JS.insert cmp' x l.
Proof.
  induction l as [|y l IH]; intros H; simpl; [reflexivity|].
  rewrite <- (H y (or_introl eq_refl)).
  destruct (cmp x y >? 0); [|reflexivity].
  f_equal. apply IH. intros z Hz. apply H. now right.
Qed.

(** Comparators that agree on the elements of the array sort it alike. *)
Lemma sort_ext_in (cmp cmp' : A -> A -> Z) l :
  (forall a b, In a l -> In b l -> cmp a b = cmp' a b) ->
  JS.sort cmp l = JS.sort cmp' l.
Proof.
  induction l as [|x l IH]; intros H; simpl; [reflexivity|].
  rewrite IH by (intros a b Ha Hb; apply H; now right).
  apply insert_ext_in. intros y Hy. apply H; [now left|right].
  apply (Permutation_in _ (Permutation_sym (sort_perm cmp' l))). exact Hy.
Qed.

Lemma filter_comm f g l : filter f (filter g l) = filter g (filter f l).
Proof.
  induction l as [|x l IH]; simpl; [reflexivity|].
  destruct (g x) eqn:Hg, (f x) eqn:Hf; simpl; rewrite ?Hg, ?Hf, IH; reflexivity.
Qed.

Lemma StronglySorted_filter (R : A -> A -> Prop) f l :
  StronglySorted R l -> StronglySorted R (filter f l).
Proof.
  induction 1 as [|x l Hs IH Hx]; simpl; [constructor|].
  destruct (f x); [|exact IH]. constructor; [exact IH|].
  rewrite Forall_forall in *. intros y Hy. apply filter_In in Hy as [Hy _]. auto.
Qed.

(** Sorting and dropping elements can be done in either order. *)
Lemma filter_sort (key : A -> Z) (cmp : A -> A -> Z) f l :
  (forall a b, cmp a b = key b - key a) ->
  filter f (JS.sort cmp l) = JS.sort cmp (filter f l).
Proof.
  intros Hcmp. apply (sort_unique key cmp Hcmp).
  - apply StronglySorted_filter. now apply sort_sorted.
  - intros t. rewrite filter_comm, (sort_stable key cmp Hcmp). apply filter_comm.
Qed.

End SortMore.

Lemma filter_other_scores (cid other : jsstring) (records : list Score) :
  other <> cid ->
  filter (fun score => JS.eqb (competitorId score) other)
         (filter (fun score => negb (JS.eqb (competitorId score) cid)) records)
  = filter (fun score => JS.eqb (competitorId score) other) records.
Proof.
  intros Hne. induction records as [|r l IH]; simpl; [reflexivity|].
  destruct (JS.eqb (competitorId r) cid) eqn:Ec; simpl.
  - apply eqb_eq in Ec.
    assert (JS.eqb (competitorId r) other = false) as ->
      by (apply eqb_neq; congruence).
    exact IH.
  - destruct (JS.eqb (competitorId r) other); now rewrite IH.
Qed.

(** A state with the roster filtered and the score list cascaded has
    the leaderboard of the old state, filtered. *)
Lemma removed_board (cid : jsstring) (st st' : State) :
  competitors st' = filter (fun c => negb (JS.eqb (id c) cid)) (competitors st) ->
  scores st' = filter (fun r => negb (JS.eqb (competitorId r) cid)) (scores st) ->
  (forall other, other <> cid ->
     AppTsx.calculateTotalScore st' other = AppTsx.calculateTotalScore st other)
  /\ AppTsx.sortedCompetitors st'
     = filter (fun c => negb (JS.eqb (id c) cid)) (AppTsx.sortedCompetitors st).
Proof.
  intros Hc Hs.
  assert (Htotal : forall other, other <> cid ->
            AppTsx.calculateTotalScore st' other = AppTsx.calculateTotalScore st other).
  { intros other Hne. unfold AppTsx.calculateTotalScore, AppTsx.getCompetitorScores.
    now rewrite Hs, filter_other_scores. }
  split; [exact Htotal|].
  unfold AppTsx.sortedCompetitors. rewrite Hc.
  rewrite (filter_sort (fun c => AppTsx.calculateTotalScore st (id c)))
    by (intros a b; reflexivity).
  apply sort_ext_in. intros a b Ha Hb. cbv zeta.
  apply filter_In in Ha as [_ Ha]. apply filter_In in Hb as [_ Hb].
  apply negb_true_iff, eqb_neq in Ha. apply negb_true_iff, eqb_neq in Hb.
  now rewrite !Htotal.
Qed.

Lemma part_board (st : State) :
  Part001.sortedCompetitors st = AppTsx.sortedCompetitors st.
Proof.
  unfold Part001.sortedCompetitors, AppTsx.sortedCompetitors.
  apply sort_ext_in. intros a b _ _. cbv zeta. now rewrite !totals_agree.
Qed.

(** A roster that grew by a competitor with an unused identifier, with
    the score list as before, has the old leaderboard once the new
    competitor is left out. *)
Lemma grown_board (uuid : jsstring) (st st' : State) (added : list Competitor) :
  inRoster uuid (competitors st) = false ->
  competitors st' = competitors st ++ added ->
  (forall c, In c added -> id c = uuid) ->
  scores st' = scores st ->
  filter (fun c => negb (JS.eqb (id c) uuid)) (AppTsx.sortedCompetitors st')
  = AppTsx.sortedCompetitors st.
Proof.
  intros Hfresh Hc Hadded Hs. unfold AppTsx.sortedCompetitors.
  rewrite (filter_sort (fun c => AppTsx.calculateTotalScore st' (id c)))
    by (intros a b; reflexivity).
  rewrite Hc, filter_app, (filter_out_absent_roster _ _ Hfresh).
  assert (filter (fun c => negb (JS.eqb (id c) uuid)) added = []) as ->.
  { clear Hc. induction added as [|c l IH]; simpl; [reflexivity|].
    rewrite (Hadded c (or_introl eq_refl)), eqb_refl. simpl.
    apply IH. intros x Hx. apply Hadded. now right. }
  rewrite app_nil_r. apply sort_ext_in. intros a b _ _. cbv zeta.
  unfold AppTsx.calculateTotalScore, AppTsx.getCompetitorScores. now rewrite Hs.
Qed.

End BoardMore.

(** X9.  Removing a competitor leaves the total of every other
    identifier as it was, and the leaderboard after the removal is the
    leaderboard before it with the removed competitor left out: the
    others keep their order.  Both variants. *)
Theorem removal_keeps_the_other_ranks (st : State) (cid : jsstring) :
  ((forall other, other <> cid ->
      AppTsx.calculateTotalScore (AppTsx.handleRemoveCompetitor cid st) other
      = AppTsx.calculateTotalScore st other)
   /\ AppTsx.sortedCompetitors (AppTsx.handleRemoveCompetitor cid st)
      = filter (fun c => negb (JS.eqb (id c) cid)) (AppTsx.sortedCompetitors st))
  /\
  ((forall other, other <> cid ->
      Part001.calculateTotalScore (Part001.handleRemoveCompetitor cid st) other
      = Part001.calculateTotalScore st other)
   /\ Part001.sortedCompetitors (Part001.handleRemoveCompetitor cid st)
      = filter (fun c => negb (JS.eqb (id c) cid)) (Part001.sortedCompetitors st)).
Proof.
  split.
  - apply BoardMore.removed_board; apply RemoveFacts.app_remove_fields.
  - rewrite !BoardMore.part_board.
    destruct (BoardMore.removed_board cid st (Part001.handleRemoveCompetitor cid st))
      as [Htotal Hboard]; try apply RemoveFacts.part_remove_fields.
    split; [|exact Hboard].
    intros other Hne. rewrite !HandlerFacts.totals_agree. now apply Htotal.
Qed.

Lemma removal_keeps_the_other_ranks_witness :
  AppTsx.calculateTotalScore (AppTsx.handleRemoveCompetitor bobId nothingSelected) aliceId
  = 10.
Proof.
  destruct (removal_keeps_the_other_ranks nothingSelected bobId) as [[Htotal _] _].
  rewrite Htotal; [reflexivity|discriminate].
Defined.

(** X10.  A click on Add Competitor with an identifier no competitor
    has changes no total, and the leaderboard after it, the competitor
    with that identifier left out, is the leaderboard before it: the
    competitors already listed keep their order.  Both variants. *)
Theorem add_keeps_the_listed_ranks (st : State) (uuid : jsstring) :
  inRoster uuid (competitors st) = false ->
  ((forall cid, AppTsx.calculateTotalScore (AppTsx.handleAddCompetitor uuid st) cid
                = AppTsx.calculateTotalScore st cid)
   /\ filter (fun c => negb (JS.eqb (id c) uuid))
             (AppTsx.sortedCompetitors (AppTsx.handleAddCompetitor uuid st))
      = AppTsx.sortedCompetitors st)
  /\
  ((forall cid, Part001.calculateTotalScore (Part001.handleAddCompetitor uuid st) cid
                = Part001.calculateTotalScore st cid)
   /\ filter (fun c => negb (JS.eqb (id c) uuid))
             (Part001.sortedCompetitors (Part001.handleAddCompetitor uuid st))
      = Part001.sortedCompetitors st).
Proof.
  intros Hfresh. split; split.
  - intros cid. unfold AppTsx.calculateTotalScore, AppTsx.getCompetitorScores.
    now rewrite AddFacts.app_add_scores.
  - destruct (AddFacts.app_add_roster uuid st) as [Hc|[_ Hc]].
    + apply (BoardMore.grown_board uuid st _ []); auto using AddFacts.app_add_scores.
      * now rewrite app_nil_r.
      * intros c [].
    + apply (BoardMore.grown_board uuid st _ _ Hfresh Hc);
        auto using AddFacts.app_add_scores.
      intros c [<-|[]]. reflexivity.
  - intros cid. unfold Part001.calculateTotalScore, Part001.getCompetitorScores.
    now rewrite AddFacts.part_add_scores.
  - rewrite !BoardMore.part_board.
    destruct (AddFacts.part_add_roster uuid st) as [Hc|[_ Hc]].
    + apply (BoardMore.grown_board uuid st _ []); auto using AddFacts.part_add_scores.
      * now rewrite app_nil_r.
      * intros c [].
    + apply (BoardMore.grown_board uuid st _ _ Hfresh Hc);
        auto using AddFacts.part_add_scores.
      intros c [<-|[]]. reflexivity.
Qed.

Lemma add_keeps_the_listed_ranks_witness :
  filter (fun c => negb (JS.eqb (id c) bobId))
         (Part001.sortedCompetitors
            (Part001.handleAddCompetitor bobId
               (setNewCompetitorName (JS.str "Bob") nothingSelected)))
  = [alice].
Proof.
  destruct (add_keeps_the_listed_ranks
              (setNewCompetitorName (JS.str "Bob") nothingSelected) bobId eq_refl)
    as [_ [_ Hboard]].
  rewrite Hboard. reflexivity.
Defined.

(* ------------------------------------------------------------------ *)
(** ** More invariants of the runs *)

Module RunMore.

Import JSFacts HandlerFacts SubmitFacts AddFacts AddMore.

(** A property every offered action preserves holds at the end of
    every run. *)
Lemma run_invariant_enabled (P : State -> Prop) enabled step :
  (forall ev st, enabled ev st = true -> P st -> P (step ev st)) ->
  forall events st st',
    P st -> runEvents enabled step events st = Some st' -> P st'.
Proof.
  intros Hstep. induction events as [|ev events IH]; intros st st' HP Hrun; simpl in Hrun.
  - now injection Hrun as <-.
  - destruct (enabled ev st) eqn:E; [|discriminate].
    apply (IH (step ev st)); auto.
Qed.

(** *** Identifiers *)

Lemma idsUnique_filter f roster : idsUnique roster -> idsUnique (filter f roster).
Proof.
  intros [Hnd Hne]. split; [now apply NoDup_map_filter|].
  intros c Hc. apply filter_In in Hc as [Hc _]. auto.
Qed.

Lemma idsUnique_added roster uuid text st :
  freshId uuid st = true -> competitors st = roster ->
  idsUnique roster -> idsUnique (roster ++ [mkCompetitor uuid text]).
Proof.
  unfold freshId. intros Hfresh <- [Hnd Hne].
  apply andb_true_iff in Hfresh as [Hfresh _].
  apply andb_true_iff in Hfresh as [Hfresh _].
  apply andb_true_iff in Hfresh as [Htruthy Hnot].
  apply negb_true_iff in Hnot. split.
  - apply NoDup_map_snoc; [exact Hnd|]. simpl. intros y Hy Heq.
    assert (inRoster uuid (competitors st) = true); [|congruence].
    apply inRoster_In. rewrite <- Heq. now apply in_map.
  - intros c Hc. apply in_app_or in Hc as [Hc|[<-|[]]]; [auto|].
    simpl. now apply truthy_true.
Qed.

Lemma app_step_idsUnique ev st :
  AppTsx.enabled ev st = true ->
  idsUnique (competitors st) -> idsUnique (competitors (AppTsx.step ev st)).
Proof.
  intros Hen Hn. destruct ev; cbn [AppTsx.step]; try exact Hn.
  - simpl in Hen. apply andb_true_iff in Hen as [_ Hfresh].
    destruct (app_add_roster uuid st) as [->|[_ ->]];
      [exact Hn|now apply (idsUnique_added _ _ _ st)].
  - now apply idsUnique_filter.
  - now rewrite RunFacts.app_submit_roster.
Qed.

Lemma part_step_idsUnique ev st :
  Part001.enabled ev st = true ->
  idsUnique (competitors st) -> idsUnique (competitors (Part001.step ev st)).
Proof.
  intros Hen Hn. destruct ev; cbn [Part001.step]; try exact Hn.
  - destruct open; exact Hn.
  - simpl in Hen. apply andb_true_iff in Hen as [_ Hfresh].
    destruct (part_add_roster uuid st) as [->|[_ ->]];
      [exact Hn|now apply (idsUnique_added _ _ _ st)].
  - rewrite (proj1 (RemoveFacts.part_remove_fields _ _)). now apply idsUnique_filter.
  - now rewrite RunFacts.part_submit_roster.
Qed.

(** With unique identifiers a removal drops exactly one competitor. *)
Lemma remove_one (cid : jsstring) (roster : list Competitor) :
  NoDup (List.map id roster) -> inRoster cid roster = true ->
  S (List.length (filter (fun c => negb (JS.eqb (id c) cid)) roster))
  = List.length roster.
Proof.
  induction roster as [|c l IH]; simpl; [discriminate|].
  intros Hnd Hin. inversion Hnd as [|? ? Hnotin Hnd']; subst.
  destruct (JS.eqb (id c) cid) eqn:E; simpl.
  - apply eqb_eq in E. subst cid. f_equal. f_equal.
    apply filter_out_absent_roster.
    destruct (inRoster (id c) l) eqn:El; [|reflexivity].
    apply inRoster_In in El. contradiction.
  - f_equal. now apply IH.
Qed.

(** *** The reset of the form in part_001 *)

Lemma roster_not_empty (st : State) :
  formShown st = true -> competitors st <> [].
Proof. unfold formShown. destruct (competitors st); [discriminate|discriminate]. Qed.

Lemma part_step_formReset ev st :
  Part001.enabled ev st = true ->
  formResetWhenEmpty st -> formResetWhenEmpty (Part001.step ev st).
Proof.
  intros Hen Hr. destruct ev; cbn [Part001.step]; try exact Hr.
  - destruct open; exact Hr.
  - destruct (nameIsNew_dec st) as [Hnew|Hold].
    + rewrite (part_add_new uuid st Hnew). intros Hempty. simpl in Hempty.
      now destruct (competitors st).
    + destruct (part_add_refused uuid st Hold) as [e ->]. exact Hr.
  - unfold Part001.handleRemoveCompetitor.
    destruct (Z.of_nat (List.length (filter _ (competitors st))) =? 0) eqn:E.
    + intros _. split; reflexivity.
    + intros Hempty. simpl in Hempty. rewrite Hempty in E. discriminate.
  - simpl in Hen. apply andb_true_iff in Hen as [Hshown _].
    intros Hempty. now apply roster_not_empty in Hshown.
  - simpl in Hen. apply andb_true_iff in Hen as [Hen _].
    apply andb_true_iff in Hen as [Hshown _].
    intros Hempty. now apply roster_not_empty in Hshown.
  - simpl in Hen. intros Hempty. rewrite RunFacts.part_submit_roster in Hempty.
    now apply roster_not_empty in Hen.
Qed.

End RunMore.

(** X11.  As long as [crypto.randomUUID()] returns a non-empty
    identifier the state does not hold yet, the identifiers of the
    roster are non-empty and pairwise distinct in every reachable state
    of either variant; and where they are, removing a competitor of the
    roster shortens the roster by exactly one. *)
Theorem roster_ids_stay_unique :
  (forall st, AppTsx.reachable st -> idsUnique (competitors st))
  /\ (forall st, Part001.reachable st -> idsUnique (competitors st))
  /\ (forall st cid,
        idsUnique (competitors st) -> inRoster cid (competitors st) = true ->
        S (List.length (competitors (AppTsx.handleRemoveCompetitor cid st)))
          = List.length (competitors st) /\
        S (List.length (competitors (Part001.handleRemoveCompetitor cid st)))
          = List.length (competitors st)).
Proof.
  split; [|split].
  - intros st [events Hrun].
    apply (RunMore.run_invariant_enabled (fun s => idsUnique (competitors s))
             AppTsx.enabled _ RunMore.app_step_idsUnique events initialState st);
      [|exact Hrun].
    split; [constructor|intros c []].
  - intros st [events Hrun].
    apply (RunMore.run_invariant_enabled (fun s => idsUnique (competitors s))
             Part001.enabled _ RunMore.part_step_idsUnique events initialState st);
      [|exact Hrun].
    split; [constructor|intros c []].
  - intros st cid [Hnd _] Hin.
    rewrite (proj1 (RemoveFacts.part_remove_fields cid st)),
            (proj1 (RemoveFacts.app_remove_fields cid st)).
    split; now apply RunMore.remove_one.
Qed.

Lemma roster_ids_stay_unique_witness :
  idsUnique (competitors staleSelection)
  /\ S (List.length (competitors (Part001.handleRemoveCompetitor bobId staleSelection)))
     = List.length (competitors staleSelection).
Proof.
  destruct roster_ids_stay_unique as (Happ & _ & Hremove).
  assert (H : idsUnique (competitors staleSelection)).
  { apply Happ. exists removeSelected. reflexivity. }
  split; [exact H|].
  apply (Hremove staleSelection bobId H). reflexivity.
Defined.

(** X12.  In part_001 an empty roster comes with an empty selection and
    a zero form in every reachable state: removing the last competitor
    resets both.  App.tsx has no such reset: it reaches a state with an
    empty roster whose selection is the removed competitor. *)
Theorem part001_resets_the_form_with_the_last_competitor :
  (forall st, Part001.reachable st -> competitors st = [] ->
              currentCompetitorId st = [] /\ currentScores st = zeroScores)
  /\ (exists st, AppTsx.reachable st /\ competitors st = [] /\
                 currentCompetitorId st <> []).
Proof.
  split.
  - intros st [events Hrun].
    apply (RunMore.run_invariant_enabled formResetWhenEmpty
             Part001.enabled _ RunMore.part_step_formReset events initialState st);
      [|exact Hrun].
    intros _. split; reflexivity.
  - exists (mkState [] [] false [] None aliceId zeroScores). split; [|split].
    + exists [ ClickOpenDialog; TypeName (JS.str "Alice"); ClickAddCompetitor aliceId;
               SelectCompetitor aliceId; ClickRemove aliceId ].
      reflexivity.
    + reflexivity.
    + discriminate.
Qed.

Lemma part001_resets_the_form_with_the_last_competitor_witness :
  currentCompetitorId (mkState [] [] false [] None [] zeroScores) = []
  /\ currentScores (mkState [] [] false [] None [] zeroScores) = zeroScores.
Proof.
  destruct part001_resets_the_form_with_the_last_competitor as [Hpart _].
  apply Hpart; [|reflexivity].
  exists [ ClickOpenDialog; TypeName (JS.str "Alice"); ClickAddCompetitor aliceId;
           SelectCompetitor aliceId; EnterScore Creativity 7; ClickRemove aliceId ].
  reflexivity.
Defined.

Module BoundsFacts.

Import JSFacts HandlerFacts SubmitFacts AddMore.

Lemma zero_within : formWithinStars zeroScores.
Proof. unfold formWithinStars. simpl. lia. Qed.

Lemma withCategory_within category value form :
  0 <= value <= 10 -> formWithinStars form ->
  formWithinStars (withCategory category value form).
Proof. unfold formWithinStars. destruct category; simpl; intuition. Qed.

Lemma nonNegative_filter f records :
  recordsNonNegative records -> recordsNonNegative (filter f records).
Proof. intros H r Hr. apply filter_In in Hr as [Hr _]. auto. Qed.

Lemma nonNegative_middle l1 l2 r r' :
  recordsNonNegative (l1 ++ r :: l2) ->
  (0 <= creativity r' /\ 0 <= technique r' /\ 0 <= presentation r') ->
  recordsNonNegative (l1 ++ r' :: l2).
Proof.
  intros H Hr' x Hx. apply in_app_or in Hx as [Hx|[<-|Hx]]; [|exact Hr'|].
  - apply H, in_or_app. now left.
  - apply H, in_or_app. right. now right.
Qed.

Lemma nonNegative_snoc l r :
  recordsNonNegative l ->
  (0 <= creativity r /\ 0 <= technique r /\ 0 <= presentation r) ->
  recordsNonNegative (l ++ [r]).
Proof.
  intros H Hr x Hx. apply in_app_or in Hx as [Hx|[<-|[]]]; [auto|exact Hr].
Qed.

Lemma part_submit_within st :
  formWithinStars (currentScores st) /\ recordsNonNegative (scores st) ->
  formWithinStars (currentScores (Part001.handleSubmitScore st)) /\
  recordsNonNegative (scores (Part001.handleSubmitScore st)).
Proof.
  intros [Hform Hrec].
  destruct (currentCompetitorId st) as [|u sel] eqn:Ecur.
  - rewrite (part_submit_rejected st Ecur). split; assumption.
  - assert (Hsel : currentCompetitorId st <> []) by (rewrite Ecur; discriminate).
    destruct (hasScore (currentCompetitorId st) (scores st)) eqn:Ehas.
    + destruct (hasScore_split _ _ Ehas) as (l1 & r & l2 & Hs & Hr & Hl1).
      rewrite (part_submit_existing st Hsel l1 r l2 Hs Hr Hl1).
      split; [apply zero_within|]. simpl. rewrite Hs in Hrec.
      apply (nonNegative_middle l1 l2 r); [exact Hrec|].
      destruct (Hrec r) as (? & ? & ?); [apply in_elt|].
      unfold formWithinStars in Hform. simpl. lia.
    + rewrite (part_submit_new st Hsel Ehas).
      split; [apply zero_within|]. simpl.
      apply nonNegative_snoc; [exact Hrec|].
      unfold formWithinStars in Hform. simpl. lia.
Qed.

Lemma part_step_within ev st :
  Part001.enabled ev st = true ->
  formWithinStars (currentScores st) /\ recordsNonNegative (scores st) ->
  formWithinStars (currentScores (Part001.step ev st)) /\
  recordsNonNegative (scores (Part001.step ev st)).
Proof.
  intros Hen Hw. destruct ev; cbn [Part001.step]; try exact Hw.
  - destruct open; exact Hw.
  - destruct (nameIsNew_dec st) as [Hnew|Hold].
    + rewrite (part_add_new uuid st Hnew). exact Hw.
    + destruct (part_add_refused uuid st Hold) as [e ->]. exact Hw.
  - destruct Hw as [Hform Hrec]. unfold Part001.handleRemoveCompetitor.
    destruct (Z.of_nat _ =? 0); simpl;
      (split; [try apply zero_within; exact Hform|now apply nonNegative_filter]).
  - destruct Hw as [Hform Hrec]. split; [|exact Hrec].
    simpl in Hen. apply andb_true_iff in Hen as [Hen Hhi].
    apply andb_true_iff in Hen as [_ Hlo].
    apply withCategory_within; [lia|exact Hform].
  - now apply part_submit_within.
Qed.

Lemma sumPoints_nonNegative records :
  recordsNonNegative records -> 0 <= sumPoints records.
Proof.
  induction records as [|r l IH]; simpl; [lia|].
  intros H. destruct (H r (or_introl eq_refl)) as (? & ? & ?).
  assert (0 <= sumPoints l) by (apply IH; intros x Hx; apply H; now right).
  unfold points. lia.
Qed.

End BoundsFacts.

(** X13.  In every reachable state of part_001 the three values of the
    form lie between 0 and 10 and no field of a score record is
    negative; so no total is negative, and a click on Submit Score
    lowers no total. *)
Theorem part001_scores_never_negative (st : State) :
  Part001.reachable st ->
  formWithinStars (currentScores st)
  /\ recordsNonNegative (scores st)
  /\ (forall cid, 0 <= Part001.calculateTotalScore st cid)
  /\ (forall cid, Part001.calculateTotalScore st cid
                  <= Part001.calculateTotalScore (Part001.handleSubmitScore st) cid).
Proof.
  intros [events Hrun].
  assert (Hw : formWithinStars (currentScores st) /\ recordsNonNegative (scores st)).
  { apply (RunMore.run_invariant_enabled
             (fun s => formWithinStars (currentScores s) /\ recordsNonNegative (scores s))
             Part001.enabled _ BoundsFacts.part_step_within events initialState st);
      [|exact Hrun].
    split; [apply BoundsFacts.zero_within|intros r []]. }
  destruct Hw as [Hform Hrec].
  split; [exact Hform|]. split; [exact Hrec|]. split.
  - intros cid. rewrite HandlerFacts.totals_agree, SubmitMore.total_sum.
    apply BoundsFacts.sumPoints_nonNegative, BoundsFacts.nonNegative_filter, Hrec.
  - intros cid. rewrite !HandlerFacts.totals_agree, !SubmitMore.total_sum.
    destruct (list_eq_dec N.eq_dec cid (currentCompetitorId st)) as [->|Hother].
    + destruct (currentCompetitorId st) as [|u sel] eqn:Ecur.
      * rewrite (SubmitFacts.part_submit_rejected st Ecur). simpl. lia.
      * rewrite <- Ecur.
        assert (Hsel : currentCompetitorId st <> []) by (rewrite Ecur; discriminate).
        destruct (SubmitMore.policy_selected_total _ _ RunFacts.part_policy st Hsel)
          as [[_ H]|(l1 & r & l2 & _ & _ & H)].
        -- rewrite H. unfold formWithinStars, formPoints in *. lia.
        -- unfold accumulated, newScoreOf, points in H. simpl in H.
           unfold formWithinStars in Hform. lia.
    + rewrite (SubmitMore.policy_other_total _ _ RunFacts.part_policy); [lia| |exact Hother].
      intros s Hs. now rewrite (SubmitFacts.part_submit_rejected s Hs).
Qed.

Lemma part001_scores_never_negative_witness :
  0 <= Part001.calculateTotalScore nothingSelected aliceId.
Proof.
  destruct (part001_scores_never_negative nothingSelected) as (_ & _ & Htotal & _).
  - exists [ ClickOpenDialog; TypeName (JS.str "Alice"); ClickAddCompetitor aliceId;
             SelectCompetitor aliceId;
             EnterScore Creativity 5; EnterScore Technique 3; EnterScore Presentation 2;
             ClickSubmitScore;
             EnterScore Creativity 4; EnterScore Technique 4; EnterScore Presentation 4 ].
    reflexivity.
  - apply Htotal.
Defined.

(* ------------------------------------------------------------------ *)
(** ** The leaderboard table and the star rating *)

Module ViewFacts.

Import JSFacts HandlerFacts.

Section MapFrom.
Context {A B : Type}.
Variable f : A -> Z -> B.

Lemma In_mapFrom (l : list A) : forall start y,
  In y (mapFrom f start l) -> exists x index, In x l /\ y = f x index.
Proof.
  induction l as [|x l IH]; intros start y; simpl; [intros []|].
  intros [<-|Hy]; [exists x, start; auto|].
  destruct (IH _ _ Hy) as (x' & index & Hx' & ->). exists x', index. auto.
Qed.

Lemma length_mapFrom (l : list A) : forall start,
  List.length (mapFrom f start l) = List.length l.
Proof. induction l as [|x l IH]; intros start; simpl; [reflexivity|]. now rewrite IH. Qed.

Lemma map_mapFrom {C : Type} (g : B -> C) (h : A -> C) (l : list A) :
  (forall x index, g (f x index) = h x) ->
  forall start, List.map g (mapFrom f start l) = List.map h l.
Proof.
  intros H. induction l as [|x l IH]; intros start; simpl; [reflexivity|].
  now rewrite H, IH.
Qed.

Lemma index_mapFrom (g : B -> Z) (l : list A) :
  (forall x index, g (f x index) = index + 1) ->
  forall start,
    List.map g (mapFrom f start l)
    = List.map (fun k => start + Z.of_nat k + 1) (seq 0 (List.length l)).
Proof.
  intros H. induction l as [|x l IH]; intros start; simpl; [reflexivity|].
  rewrite H, IH, <- seq_shift, map_map. f_equal; [f_equal; lia|].
  apply map_ext. intros k. lia.
Qed.

End MapFrom.

Lemma StronglySorted_map {A : Type} (key : A -> Z) (l : list A) :
  StronglySorted (descending key) l ->
  StronglySorted (fun a b => b <= a) (List.map key l).
Proof.
  induction 1 as [|x l Hs IH Hx]; simpl; constructor; [exact IH|].
  rewrite Forall_forall in *. intros t Ht.
  apply in_map_iff in Ht as (y & <- & Hy). now apply Hx.
Qed.

(** The table body over any array of competitors. *)
Section Table.
Variable records : list Score.
Variable get : jsstring -> list Score.
Variable total : jsstring -> Z.
Hypothesis get_filter :
  forall cid, get cid = filter (fun score => JS.eqb (competitorId score) cid) records.
Hypothesis total_get : forall cid, total cid = sumPoints (get cid).

Lemma row_sum (board : list Competitor) (row : LeaderboardRow) :
  oneRecordPerCompetitor records -> In row (tableBody get total board) ->
  shownCreativity row + shownTechnique row + shownPresentation row = shownTotal row.
Proof.
  intros Hone Hrow. unfold tableBody, mapIndexed in Hrow.
  apply In_mapFrom in Hrow as (c & index & _ & ->). simpl.
  rewrite total_get. destruct (get (id c)) as [|r rest] eqn:E; simpl; [reflexivity|].
  rewrite get_filter in E.
  assert (Hr : In r (filter (fun score => JS.eqb (competitorId score) (id c)) records))
    by (rewrite E; now left).
  apply filter_In in Hr as [Hin Hid]. apply eqb_eq in Hid.
  rewrite <- Hid, (filter_single r records Hone Hin) in E.
  injection E as <-. simpl. unfold points. lia.
Qed.

Lemma row_totals (board : list Competitor) :
  List.map shownTotal (tableBody get total board)
  = List.map (fun c => total (id c)) board.
Proof. apply map_mapFrom. reflexivity. Qed.

Lemma row_names (board : list Competitor) :
  List.map shownName (tableBody get total board) = List.map name board.
Proof. apply map_mapFrom. reflexivity. Qed.

Lemma row_ranks (board : list Competitor) :
  List.map rank (tableBody get total board)
  = List.map (fun k => Z.of_nat k + 1) (seq 0 (List.length board)).
Proof.
  unfold tableBody, mapIndexed. rewrite (index_mapFrom _ rank) by reflexivity.
  apply map_ext. intros k. lia.
Qed.

End Table.

Lemma part_total_sum (st : State) (cid : jsstring) :
  Part001.calculateTotalScore st cid = sumPoints (Part001.getCompetitorScores st cid).
Proof. rewrite totals_agree. apply SubmitMore.total_sum. Qed.

Lemma app_total_sum (st : State) (cid : jsstring) :
  AppTsx.calculateTotalScore st cid = sumPoints (AppTsx.getCompetitorScores st cid).
Proof. apply SubmitMore.total_sum. Qed.

(** *** Stars *)

Lemma small_cases (v : Z) :
  0 <= v <= 10 ->
  In v [0; 1; 2; 3; 4; 5; 6; 7; 8; 9; 10].
Proof. intros H. simpl. lia. Qed.

Lemma stars_at_most (v : Z) :
  0 <= v <= 10 ->
  filter (fun starNumber => starNumber <=? v) StarRating.starNumbers = starsUpTo v.
Proof.
  intros H. apply small_cases in H. simpl in H.
  repeat (destruct H as [<-|H]; [reflexivity|]). destruct H.
Qed.

Lemma length_starsUpTo (v : Z) : 0 <= v -> Z.of_nat (List.length (starsUpTo v)) = v.
Proof. intros H. unfold starsUpTo. rewrite length_map, length_seq. lia. Qed.

End ViewFacts.

Module TableFacts.

Import JSFacts HandlerFacts.

Lemma Forall2_mapFrom {A B : Type} (R : A -> B -> Prop) (f : A -> Z -> B)
    (l : list A) :
  (forall x index, R x (f x index)) ->
  forall start, Forall2 R l (mapFrom f start l).
Proof.
  intros H. induction l as [|x l IH]; intros start; simpl; constructor; auto.
Qed.

(** Every row of the table body shows its competitor. *)
Lemma table_shows (records : list Score) (get : jsstring -> list Score)
    (total : jsstring -> Z) (board : list Competitor) :
  (forall cid, get cid = filter (fun score => JS.eqb (competitorId score) cid) records) ->
  Forall2 (rowShows total records) board (tableBody get total board).
Proof.
  intros Hget. unfold tableBody, mapIndexed. apply Forall2_mapFrom.
  intros c index. unfold rowShows. simpl. rewrite Hget.
  split; [reflexivity|]. split; [reflexivity|]. split.
  - intros Hnone. rewrite (filter_none _ _ Hnone). simpl. auto.
  - intros l1 r l2 -> Hr Hl1.
    rewrite filter_app, (filter_none _ _ Hl1). simpl.
    rewrite Hr, eqb_refl. simpl. auto.
Qed.

End TableFacts.

(** X14.  The leaderboard table of both variants has one row per
    competitor of the leaderboard, in its order and ranked 1, 2, 3, ...
    from the top.  The row of a competitor shows the competitor's name
    and total and, in the category cells, the fields of the
    competitor's first score record, or zeros without one; the Total
    Score column is in descending order.  Where the score list has at
    most one record per competitor and the sums of its records are
    exact, the three category cells of every row add up to its Total
    Score cell. *)
Theorem leaderboard_table_rows (st : State) :
  (Forall2 (rowShows (AppTsx.calculateTotalScore st) (scores st))
           (AppTsx.sortedCompetitors st) (AppTsxView.leaderboardRows st)
   /\ List.length (AppTsxView.leaderboardRows st) = List.length (competitors st)
   /\ List.map rank (AppTsxView.leaderboardRows st)
      = List.map (fun k => Z.of_nat k + 1) (seq 0 (List.length (competitors st)))
   /\ StronglySorted (fun a b => b <= a)
                     (List.map shownTotal (AppTsxView.leaderboardRows st))
   /\ (oneRecordPerCompetitor (scores st) ->
       (forall r, In r (scores st) -> exactPoints r) ->
       forall row, In row (AppTsxView.leaderboardRows st) ->
         shownCreativity row + shownTechnique row + shownPresentation row
         = shownTotal row))
  /\
  (Forall2 (rowShows (Part001.calculateTotalScore st) (scores st))
           (Part001.sortedCompetitors st) (Part001View.leaderboardRows st)
   /\ List.length (Part001View.leaderboardRows st) = List.length (competitors st)
   /\ List.map rank (Part001View.leaderboardRows st)
      = List.map (fun k => Z.of_nat k + 1) (seq 0 (List.length (competitors st)))
   /\ StronglySorted (fun a b => b <= a)
                     (List.map shownTotal (Part001View.leaderboardRows st))
   /\ (oneRecordPerCompetitor (scores st) ->
       (forall r, In r (scores st) -> exactPoints r) ->
       forall row, In row (Part001View.leaderboardRows st) ->
         shownCreativity row + shownTechnique row + shownPresentation row
         = shownTotal row)).
Proof.
  assert (Happ : List.length (AppTsx.sortedCompetitors st) = List.length (competitors st)).
  { symmetry. apply Permutation_length, JSFacts.sort_perm. }
  assert (Hpart : List.length (Part001.sortedCompetitors st) = List.length (competitors st)).
  { symmetry. apply Permutation_length, JSFacts.sort_perm. }
  split; (split; [|split; [|split; [|split]]]).
  - apply (TableFacts.table_shows (scores st)). intros cid. reflexivity.
  - unfold AppTsxView.leaderboardRows, tableBody, mapIndexed.
    now rewrite ViewFacts.length_mapFrom.
  - unfold AppTsxView.leaderboardRows. now rewrite ViewFacts.row_ranks, Happ.
  - unfold AppTsxView.leaderboardRows. rewrite ViewFacts.row_totals.
    apply (ViewFacts.StronglySorted_map (fun c => AppTsx.calculateTotalScore st (id c))).
    apply (JSFacts.sort_sorted (fun c => AppTsx.calculateTotalScore st (id c))).
    intros a b. reflexivity.
  - intros Hone _ row.
    apply (ViewFacts.row_sum (scores st) (AppTsx.getCompetitorScores st)
             (AppTsx.calculateTotalScore st) (fun cid => eq_refl)
             (ViewFacts.app_total_sum st) (AppTsx.sortedCompetitors st) row Hone).
  - apply (TableFacts.table_shows (scores st)). intros cid. reflexivity.
  - unfold Part001View.leaderboardRows, tableBody, mapIndexed.
    now rewrite ViewFacts.length_mapFrom.
  - unfold Part001View.leaderboardRows. now rewrite ViewFacts.row_ranks, Hpart.
  - unfold Part001View.leaderboardRows. rewrite ViewFacts.row_totals.
    apply (ViewFacts.StronglySorted_map (fun c => Part001.calculateTotalScore st (id c))).
    apply (JSFacts.sort_sorted (fun c => Part001.calculateTotalScore st (id c))).
    intros a b. reflexivity.
  - intros Hone _ row.
    apply (ViewFacts.row_sum (scores st) (Part001.getCompetitorScores st)
             (Part001.calculateTotalScore st) (fun cid => eq_refl)
             (ViewFacts.part_total_sum st) (Part001.sortedCompetitors st) row Hone).
Qed.

Lemma leaderboard_table_rows_witness :
  Part001View.leaderboardRows nothingSelected
    = [mkLeaderboardRow 1 (JS.str "Alice") 5 3 2 10]
  /\ shownCreativity (mkLeaderboardRow 1 (JS.str "Alice") 5 3 2 10)
     + shownTechnique (mkLeaderboardRow 1 (JS.str "Alice") 5 3 2 10)
     + shownPresentation (mkLeaderboardRow 1 (JS.str "Alice") 5 3 2 10)
     = shownTotal (mkLeaderboardRow 1 (JS.str "Alice") 5 3 2 10).
Proof.
  destruct (leaderboard_table_rows nothingSelected) as [_ (_ & _ & _ & _ & Hsum)].
  split; [reflexivity|].
  apply Hsum.
  - repeat constructor. intros [].
  - intros r [<-|[]]. repeat split.
  - left. reflexivity.
Defined.

Module StarFacts.

Lemma categoryValue_same category value form :
  categoryValue category (withCategory category value form) = value.
Proof. now destruct category. Qed.

Lemma categoryValue_other category other value form :
  other <> category ->
  categoryValue other (withCategory category value form) = categoryValue other form.
Proof. destruct category, other; simpl; congruence. Qed.

Lemma handleClick_range value starNumber :
  1 <= starNumber <= 10 -> 0 <= StarRating.handleClick value starNumber <= 10.
Proof. unfold StarRating.handleClick. destruct (starNumber =? value); lia. Qed.

Lemma isFilled_hovered hoverValue value :
  hoverValue <> 0 ->
  StarRating.filledStars hoverValue value
  = filter (fun starNumber => starNumber <=? hoverValue) StarRating.starNumbers.
Proof.
  intros H. unfold StarRating.filledStars. apply filter_ext. intros s.
  unfold StarRating.isFilled. apply Z.eqb_neq in H. now rewrite H.
Qed.

Lemma isFilled_idle value :
  StarRating.filledStars 0 value
  = filter (fun starNumber => starNumber <=? value) StarRating.starNumbers.
Proof. reflexivity. Qed.

End StarFacts.

(** X15.  A click on star [n] (1 to 10) of a category in part_001 sets
    the category of the form to [n], or to 0 when it was [n] already;
    the other two categories keep their values, a form within 0..10
    stays within it, and the click is the score entry of a value
    between 0 and 10. *)
Theorem star_click_sets_or_clears (st : State) (category : CategoryKey) (n : Z) :
  1 <= n <= 10 ->
  (categoryValue category (currentScores st) = n ->
   categoryValue category (currentScores (clickStar category n st)) = 0)
  /\ (categoryValue category (currentScores st) <> n ->
      categoryValue category (currentScores (clickStar category n st)) = n)
  /\ (forall other, other <> category ->
        categoryValue other (currentScores (clickStar category n st))
        = categoryValue other (currentScores st))
  /\ (formWithinStars (currentScores st) ->
      formWithinStars (currentScores (clickStar category n st)))
  /\ (exists value,
        0 <= value <= 10 /\
        clickStar category n st = Part001.step (EnterScore category value) st /\
        Part001.enabled (EnterScore category value) st = formShown st).
Proof.
  intros Hn. unfold clickStar, Part001.handleScoreChange. simpl.
  pose proof (StarFacts.handleClick_range
                (categoryValue category (currentScores st)) n Hn) as Hrange.
  repeat apply conj.
  - intros H. rewrite StarFacts.categoryValue_same.
    unfold StarRating.handleClick. rewrite H, Z.eqb_refl. reflexivity.
  - intros H. rewrite StarFacts.categoryValue_same.
    unfold StarRating.handleClick.
    destruct (Z.eqb_spec n (categoryValue category (currentScores st)));
      [congruence|reflexivity].
  - intros other H. now apply StarFacts.categoryValue_other.
  - intros H. now apply BoundsFacts.withCategory_within.
  - exists (StarRating.handleClick (categoryValue category (currentScores st)) n).
    split; [exact Hrange|]. split; [reflexivity|].
    destruct (formShown st); simpl; [|reflexivity].
    apply andb_true_iff. split; apply Z.leb_le; lia.
Qed.

Lemma star_click_sets_or_clears_witness :
  categoryValue Technique (currentScores (clickStar Technique 3 firstSubmission)) = 0
  /\ categoryValue Technique (currentScores (clickStar Technique 7 firstSubmission)) = 7
  /\ categoryValue Creativity (currentScores (clickStar Technique 7 firstSubmission)) = 5.
Proof.
  destruct (star_click_sets_or_clears firstSubmission Technique 3) as (Hclear & _);
    [lia|].
  destruct (star_click_sets_or_clears firstSubmission Technique 7)
    as (_ & Hset & Hother & _); [lia|].
  split; [|split].
  - apply Hclear. reflexivity.
  - apply Hset. discriminate.
  - rewrite Hother; [reflexivity|discriminate].
Defined.

(** X16.  The stars a [StarRating] of value [value] draws filled are
    the stars 1 to [value] while no star is hovered, also right after
    the pointer has left, and the stars 1 to [hoverValue] while star
    [hoverValue] is hovered; values and star numbers from 0 to 10. *)
Theorem filled_stars_show_the_rating (hoverValue value : Z) :
  0 <= value <= 10 -> 0 <= hoverValue <= 10 ->
  StarRating.filledStars hoverValue value
    = starsUpTo (if hoverValue =? 0 then value else hoverValue)
  /\ Z.of_nat (List.length (StarRating.filledStars hoverValue value))
     = (if hoverValue =? 0 then value else hoverValue)
  /\ StarRating.filledStars (StarRating.handleMouseLeave hoverValue) value
     = starsUpTo value
  /\ (forall starNumber, 1 <= starNumber <= 10 ->
        StarRating.filledStars (StarRating.handleMouseEnter starNumber hoverValue) value
        = starsUpTo starNumber).
Proof.
  intros Hv Hh.
  assert (Hshown : StarRating.filledStars hoverValue value
                   = starsUpTo (if hoverValue =? 0 then value else hoverValue)).
  { destruct (Z.eqb_spec hoverValue 0) as [->|Hne].
    - rewrite StarFacts.isFilled_idle. now apply ViewFacts.stars_at_most.
    - rewrite (StarFacts.isFilled_hovered _ _ Hne). now apply ViewFacts.stars_at_most. }
  split; [exact Hshown|]. split; [|split].
  - rewrite Hshown. apply ViewFacts.length_starsUpTo.
    destruct (hoverValue =? 0); lia.
  - unfold StarRating.handleMouseLeave. rewrite StarFacts.isFilled_idle.
    now apply ViewFacts.stars_at_most.
  - intros s Hs. unfold StarRating.handleMouseEnter.
    rewrite StarFacts.isFilled_hovered by lia. apply ViewFacts.stars_at_most. lia.
Qed.

Lemma filled_stars_show_the_rating_witness :
  StarRating.filledStars 0 3 = [1; 2; 3]
  /\ StarRating.filledStars 5 3 = [1; 2; 3; 4; 5].
Proof.
  destruct (filled_stars_show_the_rating 0 3) as [Hidle _]; [lia|lia|].
  destruct (filled_stars_show_the_rating 5 3) as [Hhover _]; [lia|lia|].
  split; [exact Hidle|exact Hhover].
Defined.

(* ------------------------------------------------------------------ *)
(** ** Runs that never remove the selected competitor *)

Module SoundFacts.

Import JSFacts HandlerFacts AddMore ReferFacts.

Lemma offered_empty (st : State) :
  currentCompetitorId st = [] -> selectionOffered st = true.
Proof. unfold selectionOffered. now intros ->. Qed.

Lemma offered_cases (st : State) :
  selectionOffered st = true ->
  currentCompetitorId st = [] \/
  inRoster (currentCompetitorId st) (competitors st) = true.
Proof.
  unfold selectionOffered. intros H. apply orb_true_iff in H as [H|H]; [left|now right].
  now apply negb_true_iff, truthy_false in H.
Qed.

Lemma offered_in (st : State) :
  inRoster (currentCompetitorId st) (competitors st) = true -> selectionOffered st = true.
Proof. unfold selectionOffered. intros ->. apply orb_true_r. Qed.

(** The selection stays listed when the roster is filtered by another
    identifier. *)
Lemma offered_filtered (cid : jsstring) (st st' : State) :
  competitors st' = filter (fun c => negb (JS.eqb (id c) cid)) (competitors st) ->
  currentCompetitorId st' = currentCompetitorId st ->
  cid <> currentCompetitorId st ->
  selectionOffered st = true -> selectionOffered st' = true.
Proof.
  intros Hc Hcur Hne Hoff. destruct (offered_cases st Hoff) as [He|Hin].
  - apply offered_empty. congruence.
  - apply offered_in. rewrite Hc, Hcur. apply inRoster_filter_other; congruence.
Qed.

Lemma offered_grown (st st' : State) (added : list Competitor) :
  competitors st' = competitors st ++ added ->
  currentCompetitorId st' = currentCompetitorId st ->
  selectionOffered st = true -> selectionOffered st' = true.
Proof.
  intros Hc Hcur Hoff. destruct (offered_cases st Hoff) as [He|Hin].
  - apply offered_empty. congruence.
  - apply offered_in. rewrite Hc, Hcur. now apply inRoster_app.
Qed.

Lemma app_step_offered ev st :
  AppTsx.enabled ev st = true -> removesSelected ev st = false ->
  selectionOffered st = true -> selectionOffered (AppTsx.step ev st) = true.
Proof.
  intros Hen Hkeep Hoff. destruct ev; cbn [AppTsx.step]; try exact Hoff.
  - destruct (nameIsNew_dec st) as [Hnew|Hold].
    + rewrite (app_add_new uuid st Hnew).
      now apply (offered_grown st _ [mkCompetitor uuid (JS.trim (newCompetitorName st))]).
    + destruct (app_add_refused uuid st Hold) as [e ->]. exact Hoff.
  - simpl in Hkeep. apply eqb_neq in Hkeep.
    now apply (offered_filtered removedId st).
  - simpl in Hen. apply andb_true_iff in Hen as [_ Hen]. exact Hen.
  - apply offered_empty, SubmitMore.app_submit_selection.
Qed.

Lemma part_step_offered ev st :
  Part001.enabled ev st = true -> removesSelected ev st = false ->
  selectionOffered st = true -> selectionOffered (Part001.step ev st) = true.
Proof.
  intros Hen Hkeep Hoff. destruct ev; cbn [Part001.step]; try exact Hoff.
  - destruct open; exact Hoff.
  - destruct (nameIsNew_dec st) as [Hnew|Hold].
    + rewrite (part_add_new uuid st Hnew).
      now apply (offered_grown st _ [mkCompetitor uuid (JS.trim (newCompetitorName st))]).
    + destruct (part_add_refused uuid st Hold) as [e ->]. exact Hoff.
  - simpl in Hkeep. apply eqb_neq in Hkeep.
    unfold Part001.handleRemoveCompetitor.
    destruct (Z.of_nat _ =? 0); [now apply offered_empty|].
    now apply (offered_filtered removedId st).
  - simpl in Hen. apply andb_true_iff in Hen as [_ Hen]. now apply offered_in.
  - apply offered_empty, SubmitMore.part_submit_selection.
Qed.

Lemma app_step_sound ev st :
  AppTsx.enabled ev st && negb (removesSelected ev st) = true ->
  soundSelection st -> soundSelection (AppTsx.step ev st).
Proof.
  intros H [Href Hoff]. apply andb_true_iff in H as [Hen Hkeep].
  apply negb_true_iff in Hkeep. split.
  - now apply app_step_refer.
  - now apply app_step_offered.
Qed.

Lemma part_step_sound ev st :
  Part001.enabled ev st && negb (removesSelected ev st) = true ->
  soundSelection st -> soundSelection (Part001.step ev st).
Proof.
  intros H [Href Hoff]. apply andb_true_iff in H as [Hen Hkeep].
  apply negb_true_iff in Hkeep. split.
  - now apply part_step_refer.
  - now apply part_step_offered.
Qed.

End SoundFacts.

(** X17.  In a run of either variant in which Remove is never clicked
    for the competitor that is selected at that moment, every score
    record refers to a competitor of the roster and the selection is
    empty or a competitor of the roster, at the end and all along. *)
Theorem runs_keeping_the_selected_competitor_are_sound (events : list Event) (st : State) :
  (runEvents (fun ev s => AppTsx.enabled ev s && negb (removesSelected ev s))
             AppTsx.step events initialState = Some st ->
   scoresReferToRoster st = true /\ selectionOffered st = true)
  /\
  (runEvents (fun ev s => Part001.enabled ev s && negb (removesSelected ev s))
             Part001.step events initialState = Some st ->
   scoresReferToRoster st = true /\ selectionOffered st = true).
Proof.
  split; intros Hrun.
  - apply (RunMore.run_invariant_enabled soundSelection _ _
             SoundFacts.app_step_sound events initialState st); [|exact Hrun].
    split; reflexivity.
  - apply (RunMore.run_invariant_enabled soundSelection _ _
             SoundFacts.part_step_sound events initialState st); [|exact Hrun].
    split; reflexivity.
Qed.

Lemma runs_keeping_the_selected_competitor_are_sound_witness :
  scoresReferToRoster nothingSelected = true /\ selectionOffered nothingSelected = true.
Proof.
  destruct (runs_keeping_the_selected_competitor_are_sound scoreAliceOnce nothingSelected)
    as [Happ _].
  apply Happ. reflexivity.
Defined.
